(** * auto-job-tracker: the mail ingestion pipeline of [main.go]

    A shallow embedding of [main.go]: the subject filter, the body
    extractor, the three pipeline stages connected by unbuffered channels,
    and the failure report.  Go strings are byte strings; they are modelled
    as [string] (a list of 8-bit [ascii]). *)

From Stdlib Require Import List String Ascii Bool Arith ZArith Lia.
From Stdlib Require Import DecimalString.
Import ListNotations.
Open Scope string_scope.
Open Scope bool_scope.

(** ** The parts of Go's [strings] package that [main.go] calls *)

Module strings.

(** [strings.HasPrefix s prefix]. *)
Fixpoint HasPrefix (s prefix : string) {struct prefix} : bool :=
  match prefix with
  | EmptyString => true
  | String p prefix' =>
      match s with
      | EmptyString => false
      | String c s' => Ascii.eqb c p && HasPrefix s' prefix'
      end
  end.

(** [strings.Contains s substr]: [substr] occurs at some offset of [s]. *)
Fixpoint Contains (s substr : string) : bool :=
  HasPrefix s substr ||
  match s with
  | EmptyString => false
  | String _ s' => Contains s' substr
  end.

(** The lower-case mapping of one byte: ['A'..'Z'] go to ['a'..'z'],
    every other byte stays. *)
Definition lowerByte (c : ascii) : ascii :=
  let n := nat_of_ascii c in
  if ((65 <=? n) && (n <=? 90))%nat then ascii_of_nat (n + 32) else c.

(** The loop [strings.ToLower] runs over a string of ASCII bytes: every
    byte ['A'..'Z'] is replaced by its lower-case byte. *)
Fixpoint toLowerASCII (s : string) : string :=
  match s with
  | EmptyString => EmptyString
  | String c s' => String (lowerByte c) (toLowerASCII s')
  end.

(** The two flags [strings.ToLower] computes first: no byte is
    [utf8.RuneSelf] (0x80) or above, and some byte is in ['A'..'Z']. *)
Fixpoint isASCII (s : string) : bool :=
  match s with
  | EmptyString => true
  | String c s' => (nat_of_ascii c <? 128)%nat && isASCII s'
  end.

Fixpoint hasUpper (s : string) : bool :=
  match s with
  | EmptyString => false
  | String c s' =>
      ((65 <=? nat_of_ascii c) && (nat_of_ascii c <=? 90))%nat || hasUpper s'
  end.

(** [strings.ToLower].  A string of ASCII bytes is returned as it is when
    it has no upper-case byte, and goes through the byte loop otherwise.
    For any other string Go returns [Map(unicode.ToLower, s)], which
    decodes the runes of [s] and consults the Unicode case tables; that
    call is the parameter [MapToLower]. *)
Definition ToLower (MapToLower : string -> string) (s : string) : string :=
  if isASCII s then
    if hasUpper s then toLowerASCII s else s
  else MapToLower s.

(** [strings.ReplaceAll s old new] for a non-empty [old]: the occurrences
    of [old] are replaced from left to right, without overlap.  [skip]
    counts the bytes of a replaced occurrence that are still to be
    dropped. *)
Fixpoint replaceFrom (skip : nat) (s old new : string) : string :=
  match s with
  | EmptyString => EmptyString
  | String c s' =>
      match skip with
      | S k => replaceFrom k s' old new
      | O =>
          if HasPrefix s old
          then new ++ replaceFrom (String.length old - 1) s' old new
          else String c (replaceFrom 0 s' old new)
      end
  end.

Definition ReplaceAll (s old new : string) : string :=
  replaceFrom 0 s old new.

(** The six ASCII white-space bytes of Go's [asciiSpace] table:
    tab, line feed, vertical tab, form feed, carriage return, space. *)
Definition asciiSpace (c : ascii) : bool :=
  let n := nat_of_ascii c in
  (((9 <=? n) && (n <=? 13)) || (n =? 32))%nat.

(** The UTF-8 encodings of the other runes for which [unicode.IsSpace]
    holds.  Two bytes: U+0085 and U+00A0. *)
Definition space2 (c1 c2 : ascii) : bool :=
  ((nat_of_ascii c1 =? 194) &&
   ((nat_of_ascii c2 =? 133) || (nat_of_ascii c2 =? 160)))%nat.

(** Three bytes: U+1680, U+2000..U+200A, U+2028, U+2029, U+202F, U+205F
    and U+3000. *)
Definition space3 (c1 c2 c3 : ascii) : bool :=
  let n1 := nat_of_ascii c1 in
  let n2 := nat_of_ascii c2 in
  let n3 := nat_of_ascii c3 in
  (((n1 =? 225) && (n2 =? 154) && (n3 =? 128)) ||
   ((n1 =? 226) && (n2 =? 128) &&
      (((128 <=? n3) && (n3 <=? 138)) || (n3 =? 168) || (n3 =? 169) || (n3 =? 175))) ||
   ((n1 =? 226) && (n2 =? 129) && (n3 =? 159)) ||
   ((n1 =? 227) && (n2 =? 128) && (n3 =? 128)))%nat.

(** Dropping the leading white space.  [fwd] tells whether the bytes of an
    encoding arrive first byte first; the scan of the reversed string sees
    them last byte first, so the same scan serves both ends. *)
Fixpoint trimLeading (fwd : bool) (s : string) : string :=
  match s with
  | EmptyString => s
  | String c1 r1 =>
      if asciiSpace c1 then trimLeading fwd r1 else
      match r1 with
      | EmptyString => s
      | String c2 r2 =>
          if (if fwd then space2 c1 c2 else space2 c2 c1)
          then trimLeading fwd r2 else
          match r2 with
          | EmptyString => s
          | String c3 r3 =>
              if (if fwd then space3 c1 c2 c3 else space3 c3 c2 c1)
              then trimLeading fwd r3
              else s
          end
      end
  end.

Fixpoint reverse (acc s : string) : string :=
  match s with
  | EmptyString => acc
  | String c s' => reverse (String c acc) s'
  end.

(** [strings.TrimSpace]: the white space at both ends is dropped. *)
Definition TrimSpace (s : string) : string :=
  reverse EmptyString
    (trimLeading false (reverse EmptyString (trimLeading true s))).

End strings.

(** ** [regexp]: the one pattern of [main.go] *)

Module regexp.

(** Whether a [">"] byte occurs in [s]. *)
Fixpoint hasClose (s : string) : bool :=
  match s with
  | EmptyString => false
  | String c s' => Ascii.eqb c ">" || hasClose s'
  end.

(** [re.ReplaceAllString(s, EmptyString)] for the pattern [<[^>]*>] that
    [stripHTMLTags] compiles.  A match
    starts at a ["<"] that has a [">"] somewhere after it and ends at the
    first such [">"]: the class [[^>]] takes every byte but [">"].  The
    scan goes from left to right; [inTag] holds while it is inside a
    match, whose bytes are dropped. *)
Fixpoint scanTags (inTag : bool) (s : string) : string :=
  match s with
  | EmptyString => EmptyString
  | String c s' =>
      if inTag then
        (if Ascii.eqb c ">" then scanTags false s' else scanTags true s')
      else if Ascii.eqb c "<" && hasClose s' then scanTags true s'
      else String c (scanTags false s')
  end.

Definition removeTags (s : string) : string := scanTags false s.

End regexp.

(** ** [time]: the civil fields of a [time.Time] and the one layout used *)

Module time.

(** A [time.Time], seen through what [Date()] and [Clock()] return for
    it in its location. *)
Record Time := {
  Year : Z;
  Month : Z;
  Day : Z;
  Hour : Z;
  Minute : Z
}.

Fixpoint zeros (n : nat) : string :=
  match n with
  | O => EmptyString
  | S n' => String "0" (zeros n')
  end.

(** [appendInt]: the decimal digits of [x], padded with zeros on the left
    up to [width] digits, after a minus sign for a negative [x]. *)
Definition appendInt (x : Z) (width : nat) : string :=
  let digits := NilZero.string_of_uint (N.to_uint (Z.to_N (Z.abs x))) in
  (if (x <? 0)%Z then "-" else EmptyString) ++
  zeros (width - String.length digits) ++ digits.

(** [t.Format("2006-01-02 15:04")]. *)
Definition Format (t : Time) : string :=
  appendInt (Year t) 4 ++ "-" ++ appendInt (Month t) 2 ++ "-" ++
  appendInt (Day t) 2 ++ " " ++
  appendInt (Hour t) 2 ++ ":" ++ appendInt (Minute t) 2.

(** The civil fields a [time.Time] can have, with a year of four
    digits. *)
Definition civil (t : Time) : Prop :=
  (0 <= Year t <= 9999 /\ 1 <= Month t <= 12 /\ 1 <= Day t <= 31 /\
   0 <= Hour t <= 23 /\ 0 <= Minute t <= 59)%Z.

End time.

(** ** The data of the program *)

Module mail.

(** One part, as [mr.NextPart()] hands it over: the value of its
    [Content-Type] header ([EmptyString] when the header is missing) and
    what reading its body gives ([None] when [ReadFrom] fails). *)
Record Part := {
  ContentType : string;
  Body : option string
}.

(** What [mail.CreateReader] makes of a body literal: an error, or a
    reader.  A reader is the list of the parts that [NextPart] returns
    before it returns [io.EOF] or an error; [getBodyText] leaves its loop
    in the same way on both. *)
Inductive Reader :=
| Malformed
| Parts (ps : list Part).

End mail.

Module imap.

Record Address := {
  MailboxName : string;
  HostName : string
}.

(** The type [imap.Envelope]; the name [Envelope] is left to the field of
    [Message]. *)
Record EnvelopeFields := {
  Subject : string;
  Date : time.Time;
  From : list Address
}.

(** A fetched message: its envelope ([None] for a nil pointer) and its
    body section ([None] when [GetBody] returns nil). *)
Record Message := {
  Envelope : option EnvelopeFields;
  GetBody : option mail.Reader
}.

End imap.

Module models.

(** Modelled from the spec: the package [models] is not in [main.go].
    [main.go] reads the fields [Company] and [Position] of a [Job]; the
    other fields are those the spec gives a structured record. *)
Record Job := {
  Company : string;
  Position : string;
  Status : string;
  SourceDate : time.Time;
  SourceEmail : string
}.

(** The five fields [main.go] writes and reads. *)
Record FailedJob := {
  Subject : string;
  Body : string;
  Email : string;
  Date : time.Time;
  Reason : string
}.

End models.

Record RawEmail := {
  Subject : string;
  Body : string;
  Email : string;
  Date : time.Time
}.

(** ** The subject filter *)

(** The keywords of [isJobEmail], in the order of its disjunction. *)
Definition keywords : list string :=
  [ "applied"; "application"; "thanks for applying"; "thanks from";
    "follow-up"; "update"; "recruiting"; "thank you for applying" ].

Definition isJobEmail (subject : string) : bool :=
  strings.Contains subject "applied" ||
  strings.Contains subject "application" ||
  strings.Contains subject "thanks for applying" ||
  strings.Contains subject "thanks from" ||
  strings.Contains subject "follow-up" ||
  strings.Contains subject "update" ||
  strings.Contains subject "recruiting" ||
  strings.Contains subject "thank you for applying".

(** ** The sender and the body of a message *)

Definition getSenderEmail (msg : option imap.Message) : string :=
  match msg with
  | None => EmptyString
  | Some m =>
      match imap.Envelope m with
      | None => EmptyString
      | Some env =>
          match imap.From env with
          | [] => EmptyString
          | from :: _ => imap.MailboxName from ++ "@" ++ imap.HostName from
          end
      end
  end.

Definition stripHTMLTags (html : string) : string :=
  let text := regexp.removeTags html in
  let text := strings.ReplaceAll text "&nbsp;" " " in
  strings.TrimSpace text.

(** How the loop over the parts ends: by the [return] inside it, with the
    parts that were never asked for, or by a [break], with the HTML text
    remembered so far. *)
Inductive LoopExit :=
| Returned (body : string) (unread : list mail.Part)
| Broke (htmlBody : string).

Section Body.

(** [mime.ParseMediaType]: the media type of a [Content-Type] value, or
    [None] for an error. *)
Variable ParseMediaType : string -> option string.

Fixpoint partsLoop (htmlBody : string) (ps : list mail.Part) : LoopExit :=
  match ps with
  | [] => Broke htmlBody
  | p :: rest =>
      let contentType := mail.ContentType p in
      if String.eqb contentType EmptyString then partsLoop htmlBody rest else
      match ParseMediaType contentType with
      | None => partsLoop htmlBody rest
      | Some mediaType =>
          match mail.Body p with
          | None => partsLoop htmlBody rest
          | Some buf =>
              if strings.HasPrefix mediaType "text/plain" then
                Returned buf rest
              else if strings.HasPrefix mediaType "text/html" then
                partsLoop buf rest
              else partsLoop htmlBody rest
          end
      end
  end.

Definition getBodyText (msg : option imap.Message) : string :=
  match msg with
  | None => EmptyString
  | Some m =>
      match imap.GetBody m with
      | None => EmptyString
      | Some mail.Malformed => EmptyString
      | Some (mail.Parts ps) =>
          match partsLoop EmptyString ps with
          | Returned body _ => body
          | Broke htmlBody =>
              if negb (String.eqb htmlBody EmptyString)
              then stripHTMLTags htmlBody
              else EmptyString
          end
      end
  end.

(** The media type [getBodyText] works with for a part: none when the
    header is missing or does not parse. *)
Definition mediaTypeOf (p : mail.Part) : option string :=
  if String.eqb (mail.ContentType p) EmptyString then None
  else ParseMediaType (mail.ContentType p).

Definition hasMediaPrefix (prefix : string) (p : mail.Part) : bool :=
  match mediaTypeOf p with
  | Some mediaType => strings.HasPrefix mediaType prefix
  | None => false
  end.

Definition isPlain : mail.Part -> bool := hasMediaPrefix "text/plain".
Definition isHTML : mail.Part -> bool := hasMediaPrefix "text/html".

End Body.

(** ** The failure report *)

Module os.

(** The file-system calls of [writeFailuresToCSV], in the order they are
    made.  [Create] carries whether it succeeded. *)
Inductive Action :=
| MkdirAll (path : string) (perm : N)
| Create (name : string) (ok : bool)
| WriteString (s : string)
| Close.

End os.

Definition quote : string := String (ascii_of_nat 34) EmptyString.
Definition newline : string := String (ascii_of_nat 10) EmptyString.

Definition header : string := "Date,Email,Subject,Body,Reason" ++ newline.

(** The body of the loop of [writeFailuresToCSV]: the line written for one
    entry. *)
Definition csvLine (e : models.FailedJob) : string :=
  let safeBody := strings.ReplaceAll (models.Body e) quote "'" in
  let safeBody := strings.ReplaceAll safeBody newline " " in
  let safeSubject := strings.ReplaceAll (models.Subject e) quote "'" in
  quote ++ time.Format (models.Date e) ++ quote ++ "," ++
  quote ++ models.Email e ++ quote ++ "," ++
  quote ++ safeSubject ++ quote ++ "," ++
  quote ++ safeBody ++ quote ++ "," ++
  quote ++ models.Reason e ++ quote ++ newline.

Open Scope list_scope.

(** [createOk] tells whether [os.Create] succeeds. *)
Definition writeFailuresToCSV (createOk : bool)
    (llmFailures notionFailures : list models.FailedJob) : list os.Action :=
  let all := llmFailures ++ notionFailures in
  if Nat.eqb (List.length all) 0 then []
  else
    os.MkdirAll "unparsed" 493 ::
    os.Create "unparsed/unparsed_emails.csv" createOk ::
    (if createOk
     then os.WriteString header ::
          map (fun e => os.WriteString (csvLine e)) all ++ [os.Close]
     else []).

(** ** The pipeline of [main] *)

(** What a goroutine that forwards values of type [A] is doing: waiting at
    the receive of its [range] loop, blocked at its send with [x] in hand,
    or past its loop with its outbound channel closed. *)
Inductive Stage (A : Type) :=
| Receiving
| Sending (x : A)
| Closed.
Arguments Receiving {A}.
Arguments Sending {A} x.
Arguments Closed {A}.

(** Everything a run leaves behind: the two failure lists, the file-system
    calls, and the history of what each stage was handed. *)
Record Effects := {
  received : list imap.Message;        (* taken from [msgChan] *)
  parsed : list RawEmail;              (* arguments of [parser.ParseEmail] *)
  upserts : list models.Job;           (* arguments of [notion.UpdateOrCreate] *)
  failedJobs : list models.FailedJob;  (* the local [failedJobs] *)
  FailedJobs : list models.FailedJob;  (* the global [models.FailedJobs] *)
  disk : list os.Action
}.

Definition noEffects : Effects :=
  {| received := []; parsed := []; upserts := []; failedJobs := [];
     FailedJobs := []; disk := [] |}.

Record State := {
  msgChan : list imap.Message;      (* what [c.Fetch] has still to send *)
  filterStage : Stage RawEmail;     (* the goroutine between [msgChan] and [rawChan] *)
  parseStage : Stage models.Job;    (* the goroutine between [rawChan] and [jobChan] *)
  returned : bool;                  (* [main] is past [writeFailuresToCSV] *)
  eff : Effects
}.

Definition isBlank (job : models.Job) : bool :=
  String.eqb (models.Company job) EmptyString &&
  String.eqb (models.Position job) EmptyString.

Section Pipeline.

(** [strings.Map(unicode.ToLower, s)], for [strings.ToLower]. *)
Variable MapToLower : string -> string.

Variable ParseMediaType : string -> option string.

(** [parser.ParseEmail]. *)
Variable ParseEmail : string -> string -> string -> time.Time -> models.Job.

(** [notion.UpdateOrCreate], by what it does to [models.FailedJobs]. *)
Variable UpdateOrCreate :
  models.Job -> list models.FailedJob -> list models.FailedJob.

(** The messages [c.Fetch] sends on [msgChan] for the identifiers of the
    search, in the order it sends them, when it returns without error.
    On an error of [c.Fetch] the fetcher goroutine ends the process by
    [log.Fatal]; the runs described here are those without it. *)
Variable Fetch : list N -> list imap.Message.

Variable createOk : bool.

(** One turn of the loop over [msgChan]: the record sent on [rawChan],
    if any. *)
Definition filterMessage (msg : imap.Message) : option RawEmail :=
  match imap.Envelope msg with
  | None => None
  | Some env =>
      let subject := strings.ToLower MapToLower (imap.Subject env) in
      if isJobEmail subject then
        let body := getBodyText ParseMediaType (Some msg) in
        let email := getSenderEmail (Some msg) in
        Some {| Subject := subject; Body := body; Email := email;
                Date := imap.Date env |}
      else None
  end.

Definition parseRaw (raw : RawEmail) : models.Job :=
  ParseEmail (Subject raw) (Body raw) (Email raw) (Date raw).

Definition failureOf (raw : RawEmail) : models.FailedJob :=
  {| models.Subject := Subject raw;
     models.Body := Body raw;
     models.Email := Email raw;
     models.Date := Date raw;
     models.Reason := "Empty LLM output" |}.

(** One turn of the loop over [rawChan]: the job sent on [jobChan], if
    any, and the local failure list after the turn. *)
Definition parseWorker (raw : RawEmail) (failed : list models.FailedJob)
  : option models.Job * list models.FailedJob :=
  let job := parseRaw raw in
  if isBlank job then (None, failed ++ [failureOf raw])
  else (Some job, failed).

Definition stageOf {A : Type} (out : option A) : Stage A :=
  match out with
  | Some x => Sending x
  | None => Receiving
  end.

Definition afterReceive (msg : imap.Message) (e : Effects) : Effects :=
  {| received := received e ++ [msg]; parsed := parsed e;
     upserts := upserts e; failedJobs := failedJobs e;
     FailedJobs := FailedJobs e; disk := disk e |}.

Definition afterParse (raw : RawEmail) (e : Effects) : Effects :=
  {| received := received e; parsed := parsed e ++ [raw];
     upserts := upserts e;
     failedJobs := snd (parseWorker raw (failedJobs e));
     FailedJobs := FailedJobs e; disk := disk e |}.

Definition afterUpsert (job : models.Job) (e : Effects) : Effects :=
  {| received := received e; parsed := parsed e;
     upserts := upserts e ++ [job]; failedJobs := failedJobs e;
     FailedJobs := UpdateOrCreate job (FailedJobs e); disk := disk e |}.

Definition afterReport (e : Effects) : Effects :=
  {| received := received e; parsed := parsed e;
     upserts := upserts e; failedJobs := failedJobs e;
     FailedJobs := FailedJobs e;
     disk := disk e ++ writeFailuresToCSV createOk (failedJobs e) (FailedJobs e) |}.

(** The moves of the four threads.  The channels are unbuffered, so a
    value passes when its sender and its receiver meet; the receiver's
    turn of the loop is taken with the hand-over. *)
Inductive step : State -> State -> Prop :=
| step_msg msg rest ps e :
    step {| msgChan := msg :: rest; filterStage := Receiving;
            parseStage := ps; returned := false; eff := e |}
         {| msgChan := rest; filterStage := stageOf (filterMessage msg);
            parseStage := ps; returned := false; eff := afterReceive msg e |}
| step_close_raw ps e :
    step {| msgChan := []; filterStage := Receiving;
            parseStage := ps; returned := false; eff := e |}
         {| msgChan := []; filterStage := Closed;
            parseStage := ps; returned := false; eff := e |}
| step_raw ms raw e :
    step {| msgChan := ms; filterStage := Sending raw;
            parseStage := Receiving; returned := false; eff := e |}
         {| msgChan := ms; filterStage := Receiving;
            parseStage := stageOf (fst (parseWorker raw (failedJobs e)));
            returned := false; eff := afterParse raw e |}
| step_close_job ms e :
    step {| msgChan := ms; filterStage := Closed;
            parseStage := Receiving; returned := false; eff := e |}
         {| msgChan := ms; filterStage := Closed;
            parseStage := Closed; returned := false; eff := e |}
| step_job ms fs job e :
    step {| msgChan := ms; filterStage := fs;
            parseStage := Sending job; returned := false; eff := e |}
         {| msgChan := ms; filterStage := fs;
            parseStage := Receiving; returned := false; eff := afterUpsert job e |}
| step_report ms fs e :
    step {| msgChan := ms; filterStage := fs;
            parseStage := Closed; returned := false; eff := e |}
         {| msgChan := ms; filterStage := fs;
            parseStage := Closed; returned := true; eff := afterReport e |}.

Inductive steps : State -> State -> Prop :=
| steps_refl s : steps s s
| steps_cons s1 s2 s3 : step s1 s2 -> steps s2 s3 -> steps s1 s3.

Definition initial (msgs : list imap.Message) : State :=
  {| msgChan := msgs; filterStage := Receiving; parseStage := Receiving;
     returned := false; eff := noEffects |}.

(** [main] from the search on: with no identifier it returns at once,
    otherwise it starts the stages and returns after the report. *)
Inductive main (ids : list N) : Effects -> Prop :=
| main_nothing : List.length ids = 0 -> main ids noEffects
| main_run s :
    List.length ids <> 0 ->
    steps (initial (Fetch ids)) s -> returned s = true ->
    main ids (eff s).

End Pipeline.

(** ** Running the pipeline to its end *)

Section Completion.

Variable MapToLower : string -> string.
Variable ParseMediaType : string -> option string.
Variable ParseEmail : string -> string -> string -> time.Time -> models.Job.
Variable UpdateOrCreate :
  models.Job -> list models.FailedJob -> list models.FailedJob.
Variable createOk : bool.

(** A record from its parse to the end of its upsert, and a message from
    its receipt to the end of its upsert, with no other thread moving in
    between. *)
Definition processRaw (raw : RawEmail) (e : Effects) : Effects :=
  match fst (parseWorker ParseEmail raw (failedJobs e)) with
  | Some job => afterUpsert UpdateOrCreate job (afterParse ParseEmail raw e)
  | None => afterParse ParseEmail raw e
  end.

Definition processMsg (msg : imap.Message) (e : Effects) : Effects :=
  match filterMessage MapToLower ParseMediaType msg with
  | Some raw => processRaw raw (afterReceive msg e)
  | None => afterReceive msg e
  end.

Definition processAll (msgs : list imap.Message) (e : Effects) : Effects :=
  fold_left (fun e msg => processMsg msg e) msgs e.

(** What is still to come from the filter stage and from [msgChan]. *)
Definition upstream (s : State) (e : Effects) : Effects :=
  match filterStage s with
  | Closed => e
  | Sending raw => processAll (msgChan s) (processRaw raw e)
  | Receiving => processAll (msgChan s) e
  end.

(** The effects at the end of the run that a state is part of. *)
Definition complete (s : State) : Effects :=
  if returned s then eff s else
  match parseStage s with
  | Closed => afterReport createOk (eff s)
  | Sending job => afterReport createOk (upstream s (afterUpsert UpdateOrCreate job (eff s)))
  | Receiving => afterReport createOk (upstream s (eff s))
  end.

(** The parse stage closes [jobChan] only after it has seen [rawChan]
    closed. *)
Definition wellFormed (s : State) : Prop :=
  parseStage s = Closed -> filterStage s = Closed.

(** One schedule: the thread furthest down the pipeline that can move,
    moves. *)
Definition next (s : State) : option State :=
  if returned s then None else
  match parseStage s with
  | Closed =>
      Some {| msgChan := msgChan s; filterStage := filterStage s;
              parseStage := Closed; returned := true;
              eff := afterReport createOk (eff s) |}
  | Sending job =>
      Some {| msgChan := msgChan s; filterStage := filterStage s;
              parseStage := Receiving; returned := false;
              eff := afterUpsert UpdateOrCreate job (eff s) |}
  | Receiving =>
      match filterStage s with
      | Sending raw =>
          Some {| msgChan := msgChan s; filterStage := Receiving;
                  parseStage := stageOf (fst (parseWorker ParseEmail raw (failedJobs (eff s))));
                  returned := false; eff := afterParse ParseEmail raw (eff s) |}
      | Closed =>
          Some {| msgChan := msgChan s; filterStage := Closed;
                  parseStage := Closed; returned := false; eff := eff s |}
      | Receiving =>
          match msgChan s with
          | msg :: rest =>
              Some {| msgChan := rest;
                      filterStage := stageOf (filterMessage MapToLower ParseMediaType msg);
                      parseStage := Receiving; returned := false;
                      eff := afterReceive msg (eff s) |}
          | [] =>
              Some {| msgChan := []; filterStage := Closed;
                      parseStage := Receiving; returned := false;
                      eff := eff s |}
          end
      end
  end.

Fixpoint exec (fuel : nat) (s : State) : State :=
  match fuel with
  | O => s
  | S fuel' =>
      match next s with
      | Some s' => exec fuel' s'
      | None => s
      end
  end.

(** A bound on the moves a state has left. *)
Definition measure (s : State) : nat :=
  4 * List.length (msgChan s) +
  match filterStage s with Closed => 0 | Receiving => 1 | Sending _ => 3 end +
  match parseStage s with Closed => 0 | Receiving => 1 | Sending _ => 2 end +
  (if returned s then 0 else 1).

(** The jobs a message leads to: one, or none. *)
Definition jobOf (msg : imap.Message) : list models.Job :=
  match filterMessage MapToLower ParseMediaType msg with
  | Some raw =>
      if isBlank (parseRaw ParseEmail raw) then []
      else [parseRaw ParseEmail raw]
  | None => []
  end.

(** The failure entries a message leads to in the parse stage. *)
Definition failureOfMsg (msg : imap.Message) : list models.FailedJob :=
  match filterMessage MapToLower ParseMediaType msg with
  | Some raw =>
      if isBlank (parseRaw ParseEmail raw) then [failureOf raw] else []
  | None => []
  end.

(** The records a message leads to on [rawChan]. *)
Definition candidateOf (msg : imap.Message) : list RawEmail :=
  match filterMessage MapToLower ParseMediaType msg with
  | Some raw => [raw]
  | None => []
  end.

End Completion.

(** ** The properties the program is compared with *)

(** Two bytes that are equal, or an upper-case ASCII letter (65..90) and
    its lower-case letter, 32 above. *)
Definition sameLetter (a b : ascii) : bool :=
  let x := nat_of_ascii a in
  let y := nat_of_ascii b in
  ((x =? y) ||
   ((65 <=? x) && (x <=? 90) && (y =? x + 32)) ||
   ((65 <=? y) && (y <=? 90) && (x =? y + 32)))%nat.

(** Two strings that differ in the case of their ASCII letters only. *)
Fixpoint EqualFold (s t : string) : bool :=
  match s, t with
  | EmptyString, EmptyString => true
  | String a s', String b t' => sameLetter a b && EqualFold s' t'
  | _, _ => false
  end.

(** [s] contains [k] when case is ignored. *)
Definition containsFold (s k : string) : Prop :=
  exists pre mid post,
    s = (pre ++ mid ++ post)%string /\ EqualFold mid k = true.

(** The keyword set as the specification lists it. *)
Definition listedKeywords : list string :=
  [ "applied"; "application"; "thanks for applying"; "follow-up"; "update";
    "recruiting"; "thank you for applying" ].

Fixpoint noClose (s : string) : Prop :=
  match s with
  | EmptyString => True
  | String c s' => c <> ">"%char /\ noClose s'
  end.

(** The strings the pattern [<[^>]*>] matches. *)
Definition isTag (t : string) : Prop :=
  exists inner, t = (String "<" inner ++ ">")%string /\ noClose inner.

(** Removing the matches of the pattern: at each offset, from left to
    right, a match that starts there is dropped, and the scan goes on
    behind it; a byte at which no match starts is kept. *)
Inductive TagsRemoved : string -> string -> Prop :=
| removed_end : TagsRemoved EmptyString EmptyString
| removed_tag t rest out :
    isTag t -> TagsRemoved rest out -> TagsRemoved (t ++ rest)%string out
| removed_keep c rest out :
    (forall t rest', isTag t -> String c rest <> (t ++ rest')%string) ->
    TagsRemoved rest out -> TagsRemoved (String c rest) (String c out).

(** [t] occurs in [s]. *)
Definition occursIn (t s : string) : Prop :=
  exists pre post, s = (pre ++ t ++ post)%string.

(** A field value with its double quotes turned into single quotes and its
    line feeds into spaces. *)
Definition sanitized (v : string) : string :=
  strings.ReplaceAll (strings.ReplaceAll v quote "'") newline " ".

(** A row with every field value sanitized. *)
Definition sanitizedLine (e : models.FailedJob) : string :=
  (quote ++ sanitized (time.Format (models.Date e)) ++ quote ++ "," ++
   quote ++ sanitized (models.Email e) ++ quote ++ "," ++
   quote ++ sanitized (models.Subject e) ++ quote ++ "," ++
   quote ++ sanitized (models.Body e) ++ quote ++ "," ++
   quote ++ sanitized (models.Reason e) ++ quote ++ newline)%string.

(** Replacing one byte by another, everywhere. *)
Fixpoint mapByte (old new : ascii) (s : string) : string :=
  match s with
  | EmptyString => EmptyString
  | String c s' => String (if Ascii.eqb c old then new else c) (mapByte old new s')
  end.

Fixpoint isDigits (s : string) : bool :=
  match s with
  | EmptyString => true
  | String c s' =>
      ((48 <=? nat_of_ascii c) && (nat_of_ascii c <=? 57))%nat && isDigits s'
  end.

(** The test of the filter stage on an envelope subject: [isJobEmail] is
    called on the subject in lower case. *)
Definition subjectFilter (MapToLower : string -> string) (subject : string)
  : bool :=
  isJobEmail (strings.ToLower MapToLower subject).

Section Remembered.

Variable ParseMediaType : string -> option string.

(** The HTML text remembered after one part that is not plain text. *)
Definition remember (htmlBody : string) (p : mail.Part) : string :=
  if isHTML ParseMediaType p then
    match mail.Body p with
    | Some buf => buf
    | None => htmlBody
    end
  else htmlBody.

Definition remembered (htmlBody : string) (ps : list mail.Part) : string :=
  fold_left remember ps htmlBody.

Definition notPlain (p : mail.Part) : Prop := isPlain ParseMediaType p = false.
Definition notHTML (p : mail.Part) : Prop := isHTML ParseMediaType p = false.

End Remembered.

(** A message with the given parts. *)
Definition messageOf (env : option imap.EnvelopeFields) (ps : list mail.Part)
  : option imap.Message :=
  Some {| imap.Envelope := env; imap.GetBody := Some (mail.Parts ps) |}.

(** [s] is [n] decimal digits. *)
Definition digitsOfWidth (n : nat) (s : string) : bool :=
  Nat.eqb (String.length s) n && isDigits s.

(** The shape [YYYY-MM-DD HH:MM]. *)
Definition hasLayout (s : string) : Prop :=
  exists y mo d h mi,
    s = (y ++ "-" ++ mo ++ "-" ++ d ++ " " ++ h ++ ":" ++ mi)%string /\
    digitsOfWidth 4 y = true /\ digitsOfWidth 2 mo = true /\
    digitsOfWidth 2 d = true /\ digitsOfWidth 2 h = true /\
    digitsOfWidth 2 mi = true.

(** The file-system calls of a report that writes the given lines. *)
Definition reportOf (lines : list string) : list os.Action :=
  os.MkdirAll "unparsed" 493 ::
  os.Create "unparsed/unparsed_emails.csv" true ::
  os.WriteString header :: map os.WriteString lines ++ [os.Close].

(** ** Sample collaborators and messages, for the examples *)

Module Sample.

(** [mime.ParseMediaType] on a value without parameters and in lower
    case: the media type is the value. *)
Definition ParseMediaType (contentType : string) : option string :=
  Some contentType.

(** A parser that finds nothing in an empty body and takes the position
    from the body otherwise. *)
Definition ParseEmail (subject body email : string) (date : time.Time)
  : models.Job :=
  if String.eqb body EmptyString then
    {| models.Company := EmptyString; models.Position := EmptyString;
       models.Status := EmptyString; models.SourceDate := date;
       models.SourceEmail := email |}
  else
    {| models.Company := "Acme"; models.Position := body;
       models.Status := "Applied"; models.SourceDate := date;
       models.SourceEmail := email |}.

(** A parser that never finds anything. *)
Definition ParseNothing (subject body email : string) (date : time.Time)
  : models.Job :=
  {| models.Company := EmptyString; models.Position := EmptyString;
     models.Status := EmptyString; models.SourceDate := date;
     models.SourceEmail := email |}.

Definition date : time.Time :=
  {| time.Year := 2024; time.Month := 3; time.Day := 7;
     time.Hour := 9; time.Minute := 5 |}.

(** A store that refuses the position [Intern]. *)
Definition UpdateOrCreate (job : models.Job) (failed : list models.FailedJob)
  : list models.FailedJob :=
  if String.eqb (models.Position job) "Intern" then
    failed ++
    [{| models.Subject := EmptyString; models.Body := EmptyString;
        models.Email := models.SourceEmail job; models.Date := date;
        models.Reason := "store refused " ++ quote ++ "Intern" ++ quote |}]
  else failed.

Definition plainPart (text : string) : mail.Part :=
  {| mail.ContentType := "text/plain"; mail.Body := Some text |}.

Definition htmlPart (text : string) : mail.Part :=
  {| mail.ContentType := "text/html"; mail.Body := Some text |}.

Definition message (subject : string) (ps : list mail.Part) : imap.Message :=
  {| imap.Envelope :=
       Some {| imap.Subject := subject; imap.Date := date;
               imap.From := [{| imap.MailboxName := "jobs";
                                imap.HostName := "acme.test" |}] |};
     imap.GetBody := Some (mail.Parts ps) |}.

(** Four messages: an intern position, a newsletter, an HTML-only
    engineer position, and an application with no text at all. *)
Definition inbox : list imap.Message :=
  [ message "Thanks for applying to Acme" [htmlPart "<p>x</p>"; plainPart "Intern"];
    message "Weekly newsletter" [plainPart "News"];
    message "Application UPDATE" [htmlPart "<i>old</i>"; htmlPart " <b>Engineer</b>&nbsp;II "];
    message "Recruiting" [] ].

Definition Fetch (ids : list N) : list imap.Message :=
  firstn (List.length ids) inbox.

Definition raw (subject body : string) : RawEmail :=
  {| Subject := subject; Body := body; Email := "jobs@acme.test";
     Date := date |}.

(** A failure entry whose reason holds double quotes. *)
Definition refused : models.FailedJob :=
  {| models.Subject := EmptyString; models.Body := EmptyString;
     models.Email := "jobs@acme.test"; models.Date := date;
     models.Reason := "store refused " ++ quote ++ "Intern" ++ quote |}.

(** A failure entry with a line feed in its subject and a double quote in
    its sender. *)
Definition folded : models.FailedJob :=
  {| models.Subject := "application" ++ newline ++ "update";
     models.Body := "Dear " ++ quote ++ "Ann" ++ quote ++ "," ++ newline ++ "thanks";
     models.Email := quote ++ "hr" ++ quote ++ "@acme.test";
     models.Date := date;
     models.Reason := "Empty LLM output" |}.

End Sample.

(** ** White space at the ends of a string, and replacement, as relations *)

(** Whether [s] starts with the encoding of a white-space rune; with
    [fwd = false], whether the reversed string [s] does. *)
Definition startsWithSpace (fwd : bool) (s : string) : bool :=
  match s with
  | EmptyString => false
  | String c1 r1 =>
      strings.asciiSpace c1 ||
      match r1 with
      | EmptyString => false
      | String c2 r2 =>
          (if fwd then strings.space2 c1 c2 else strings.space2 c2 c1) ||
          match r2 with
          | EmptyString => false
          | String c3 _ =>
              if fwd then strings.space3 c1 c2 c3 else strings.space3 c3 c2 c1
          end
      end
  end.

Definition endsWithSpace (s : string) : bool :=
  startsWithSpace false (strings.reverse EmptyString s).

(** A string made of encodings of white-space runes only. *)
Inductive Spaces (fwd : bool) : string -> Prop :=
| spaces_end : Spaces fwd EmptyString
| spaces_one c rest :
    strings.asciiSpace c = true -> Spaces fwd rest ->
    Spaces fwd (String c rest)
| spaces_two c1 c2 rest :
    (if fwd then strings.space2 c1 c2 else strings.space2 c2 c1) = true ->
    Spaces fwd rest -> Spaces fwd (String c1 (String c2 rest))
| spaces_three c1 c2 c3 rest :
    (if fwd then strings.space3 c1 c2 c3 else strings.space3 c3 c2 c1) = true ->
    Spaces fwd rest -> Spaces fwd (String c1 (String c2 (String c3 rest))).

(** [t] is [s] without the white space at its two ends. *)
Definition Trimmed (s t : string) : Prop :=
  exists l r,
    s = (l ++ t ++ r)%string /\ Spaces true l /\ Spaces true r /\
    startsWithSpace true t = false /\ endsWithSpace t = false.

(** Replacing the occurrences of [old] by [new], from left to right and
    without overlap. *)
Inductive Replaced (old new : string) : string -> string -> Prop :=
| replaced_end : Replaced old new EmptyString EmptyString
| replaced_here rest out :
    Replaced old new rest out ->
    Replaced old new (old ++ rest)%string (new ++ out)%string
| replaced_keep c rest out :
    strings.HasPrefix (String c rest) old = false ->
    Replaced old new rest out ->
    Replaced old new (String c rest) (String c out).

(** ** Further vocabulary for the properties of the code *)

(** The body [getBodyText] makes of the way its loop ended. *)
Definition bodyOf (exit : LoopExit) : string :=
  match exit with
  | Returned body _ => body
  | Broke htmlBody =>
      if negb (String.eqb htmlBody EmptyString)
      then stripHTMLTags htmlBody
      else EmptyString
  end.

Section Skipped.

Variable ParseMediaType : string -> option string.

(** A part the loop passes over: its header is missing, or does not parse,
    or its body cannot be read, or its media type is neither plain text
    nor HTML. *)
Definition skipped (p : mail.Part) : Prop :=
  mail.ContentType p = EmptyString \/
  ParseMediaType (mail.ContentType p) = None \/
  mail.Body p = None \/
  (isPlain ParseMediaType p = false /\ isHTML ParseMediaType p = false).

End Skipped.

(** A message without sender information, as [getSenderEmail] tests it. *)
Definition noSender (msg : option imap.Message) : Prop :=
  match msg with
  | None => True
  | Some m =>
      match imap.Envelope m with
      | None => True
      | Some env => imap.From env = []
      end
  end.

(** Whether a match of [<[^>]*>] occurs in [s]: a ["<"] with a [">"]
    somewhere behind it. *)
Fixpoint hasTag (s : string) : bool :=
  match s with
  | EmptyString => false
  | String c s' => (Ascii.eqb c "<" && regexp.hasClose s') || hasTag s'
  end.

(** The two sanitized fields of [writeFailuresToCSV]. *)
Definition safeBodyOf (body : string) : string :=
  strings.ReplaceAll (strings.ReplaceAll body quote "'") newline " ".

Definition safeSubjectOf (subject : string) : string :=
  strings.ReplaceAll subject quote "'".

(** Whether the byte [c] occurs in [s]. *)
Fixpoint hasByte (c : ascii) (s : string) : bool :=
  match s with
  | EmptyString => false
  | String x s' => Ascii.eqb x c || hasByte c s'
  end.

(** The number of times the byte [c] occurs in [s]. *)
Fixpoint countByte (c : ascii) (s : string) : nat :=
  match s with
  | EmptyString => 0
  | String x s' => (if Ascii.eqb x c then 1 else 0) + countByte c s'
  end.

Section Counted.

Variable MapToLower : string -> string.
Variable ParseMediaType : string -> option string.
Variable ParseEmail : string -> string -> string -> time.Time -> models.Job.
Variable UpdateOrCreate :
  models.Job -> list models.FailedJob -> list models.FailedJob.
Variable createOk : bool.

(** Runs of a given number of moves. *)
Inductive stepsN : nat -> State -> State -> Prop :=
| stepsN_refl s : stepsN 0 s s
| stepsN_cons n s1 s2 s3 :
    step MapToLower ParseMediaType ParseEmail UpdateOrCreate createOk s1 s2 ->
    stepsN n s2 s3 -> stepsN (S n) s1 s3.

End Counted.

(** What a stage has in hand. *)
Definition held {A : Type} (st : Stage A) : list A :=
  match st with
  | Sending x => [x]
  | Receiving => []
  | Closed => []
  end.

Section Outcomes.

Variable MapToLower : string -> string.
Variable ParseMediaType : string -> option string.
Variable ParseEmail : string -> string -> string -> time.Time -> models.Job.

(** The job a parsed record is sent on with, if any, and the failure entry
    it leaves, if any. *)
Definition jobOfRaw (raw : RawEmail) : list models.Job :=
  if isBlank (parseRaw ParseEmail raw) then [] else [parseRaw ParseEmail raw].

Definition failureOfRaw (raw : RawEmail) : list models.FailedJob :=
  if isBlank (parseRaw ParseEmail raw) then [failureOf raw] else [].

(** The bookkeeping of a run: what was received and what is still to
    come, what was parsed and what the filter stage has in hand, what was
    upserted and what the parse stage has in hand, and the failure
    list. *)
Definition conserved (msgs : list imap.Message) (s : State) : Prop :=
  received (eff s) ++ msgChan s = msgs /\
  parsed (eff s) ++ held (filterStage s) =
    flat_map (candidateOf MapToLower ParseMediaType) (received (eff s)) /\
  upserts (eff s) ++ held (parseStage s) = flat_map jobOfRaw (parsed (eff s)) /\
  failedJobs (eff s) = flat_map failureOfRaw (parsed (eff s)).

End Outcomes.

(** Three moves for each message still to come, and those of the values in
    hand, the two closes and the report. *)
Definition movesLeft (s : State) : nat :=
  3 * List.length (msgChan s) +
  match filterStage s with Closed => 0 | Receiving => 1 | Sending _ => 3 end +
  match parseStage s with Closed => 0 | Receiving => 1 | Sending _ => 2 end +
  (if returned s then 0 else 1).

(** ** Further samples, for the examples of the edge cases *)

Module Edge.

Definition noHeaderPart : mail.Part :=
  {| mail.ContentType := EmptyString; mail.Body := Some "no header" |}.

Definition imagePart : mail.Part :=
  {| mail.ContentType := "image/png"; mail.Body := Some "PNG" |}.

Definition unreadablePlain : mail.Part :=
  {| mail.ContentType := "text/plain"; mail.Body := None |}.

(** A mailbox of two messages that the filter stage discards: one with a
    subject without keyword, one without envelope. *)
Definition newsletters : list imap.Message :=
  [ Sample.message "Weekly newsletter" [Sample.plainPart "News"];
    {| imap.Envelope := None; imap.GetBody := None |} ].

(** A failure entry of the parse stage, with double quotes and a line
    feed in its body only. *)
Definition entry : models.FailedJob :=
  {| models.Subject := "recruiting";
     models.Body := "Dear " ++ quote ++ "Ann" ++ quote ++ "," ++ newline ++ "thanks";
     models.Email := "jobs@acme.test";
     models.Date := Sample.date;
     models.Reason := "Empty LLM output" |}.

(** A mailbox of one message that goes all the way to the store. *)
Definition single : list imap.Message :=
  [ Sample.message "Your application" [Sample.plainPart "Engineer"] ].

End Edge.

Module SampleCase.

(** [strings.Map(unicode.ToLower, s)] on the strings of the examples with
    a byte above 0x7F: their characters outside ASCII have no lower case,
    so only the ASCII letters change. *)
Definition MapToLower (s : string) : string := strings.toLowerASCII s.

End SampleCase.

(** ** The MIME parts of a message, seen through [NextPart] *)

(** What [mr.NextPart()] does at one MIME part of a message: it hands the
    part over, or it returns an error for it (a part it cannot decode, for
    example one in a character set it does not know).  On the first error
    the loop of [getBodyText] breaks, so the reader of a message, in the
    sense of [mail.Parts], holds the parts before the first failure. *)
Inductive NextPart :=
| Handed (p : mail.Part)
| Failed (p : mail.Part).

Definition partOf (n : NextPart) : mail.Part :=
  match n with
  | Handed p => p
  | Failed p => p
  end.

Fixpoint handedOver (es : list NextPart) : list mail.Part :=
  match es with
  | Handed p :: rest => p :: handedOver rest
  | Failed _ :: _ => []
  | [] => []
  end.

(** A message with the given MIME parts, whose body section
    [mail.CreateReader] accepts. *)
Definition messageWith (env : option imap.EnvelopeFields) (es : list NextPart)
  : option imap.Message :=
  messageOf env (handedOver es).

Section Passed.

Variable ParseMediaType : string -> option string.

(** A part that does not end the loop by its [return]: it is not of a
    plain-text media type, or its body cannot be read. *)
Definition passedPlain (p : mail.Part) : Prop :=
  isPlain ParseMediaType p = false \/ mail.Body p = None.

(** A part that leaves the remembered HTML text as it is. *)
Definition passedHTML (p : mail.Part) : Prop :=
  isHTML ParseMediaType p = false \/ mail.Body p = None.

(** The first MIME part of a plain-text media type, and the last one of an
    HTML media type. *)
Definition firstPlain (es : list NextPart) : option mail.Part :=
  find (isPlain ParseMediaType) (map partOf es).

Definition lastHTML (es : list NextPart) : option mail.Part :=
  find (isHTML ParseMediaType) (rev (map partOf es)).

End Passed.

(** The white-space bytes of ASCII. *)
Definition spaceBytes : list nat := [9; 10; 11; 12; 13; 32]%nat.

Module Charset.

Fixpoint beforeSemicolon (s : string) : string :=
  match s with
  | EmptyString => EmptyString
  | String c s' =>
      if Ascii.eqb c ";" then EmptyString else String c (beforeSemicolon s')
  end.

(** [mime.ParseMediaType] on a value in lower case of the form
    [type/subtype] or [type/subtype; name=value]: the media type stands
    before the semicolon. *)
Definition ParseMediaType (contentType : string) : option string :=
  Some (beforeSemicolon contentType).

(** A plain-text part and an HTML part in a character set that the reader
    does not know, and an HTML part whose body cannot be read. *)
Definition latin1Plain : mail.Part :=
  {| mail.ContentType := "text/plain; charset=iso-8859-1";
     mail.Body := Some "First" |}.

Definition latin1HTML (text : string) : mail.Part :=
  {| mail.ContentType := "text/html; charset=iso-8859-1";
     mail.Body := Some text |}.

Definition unreadableHTML : mail.Part :=
  {| mail.ContentType := "text/html"; mail.Body := None |}.

End Charset.

(** * Proofs *)

(** ** Strings *)

Section StringFacts.

Open Scope string_scope.

Lemma append_nil_r (s : string) : s ++ EmptyString = s.
Proof. induction s as [|c s IH]; simpl; [reflexivity | now rewrite IH]. Qed.

Lemma append_assoc (a b c : string) : (a ++ b) ++ c = a ++ b ++ c.
Proof. induction a as [|x a IH]; simpl; [reflexivity | now rewrite IH]. Qed.

Lemma HasPrefix_iff (s p : string) :
  strings.HasPrefix s p = true <-> exists post, s = p ++ post.
Proof.
  revert s; induction p as [|a p IH]; intros s; simpl.
  - split; [intros _; now exists s | intros _; reflexivity].
  - destruct s as [|c s].
    + split; [discriminate | intros [post H]; discriminate].
    + rewrite andb_true_iff, Ascii.eqb_eq, IH. split.
      * intros [-> [post ->]]. now exists post.
      * intros [post H]. injection H as -> ->. split; [reflexivity | now exists post].
Qed.

Lemma Contains_iff (s k : string) :
  strings.Contains s k = true <-> occursIn k s.
Proof.
  unfold occursIn. induction s as [|c s IH].
  - simpl. rewrite orb_false_r, HasPrefix_iff. split.
    + intros [post H]. now exists EmptyString, post.
    + intros [pre [post H]]. destruct pre; [now exists post | discriminate].
  - cbn [strings.Contains]. rewrite orb_true_iff, HasPrefix_iff, IH. split.
    + intros [[post H] | [pre [post H]]].
      * now exists EmptyString, post.
      * exists (String c pre), post. simpl. now rewrite H.
    + intros [pre [post H]]. destruct pre as [|x pre].
      * left. now exists post.
      * right. simpl in H. injection H as _ H. now exists pre, post.
Qed.

Lemma toLowerASCII_append (a b : string) :
  strings.toLowerASCII (a ++ b) = strings.toLowerASCII a ++ strings.toLowerASCII b.
Proof. induction a as [|x a IH]; simpl; [reflexivity | now rewrite IH]. Qed.

Lemma lowerByte_idem (c : ascii) :
  strings.lowerByte (strings.lowerByte c) = strings.lowerByte c.
Proof.
  unfold strings.lowerByte.
  destruct ((65 <=? nat_of_ascii c)%nat && (nat_of_ascii c <=? 90)%nat) eqn:E.
  - apply andb_true_iff in E as [E1 E2].
    apply Nat.leb_le in E1, E2.
    rewrite nat_ascii_embedding by lia.
    replace ((65 <=? nat_of_ascii c + 32)%nat && (nat_of_ascii c + 32 <=? 90)%nat)
      with false; [reflexivity|].
    symmetry. apply andb_false_iff. right. apply Nat.leb_gt. lia.
  - now rewrite E.
Qed.

Lemma toLowerASCII_idem (s : string) :
  strings.toLowerASCII (strings.toLowerASCII s) = strings.toLowerASCII s.
Proof.
  induction s as [|c s IH]; simpl; [reflexivity|].
  now rewrite lowerByte_idem, IH.
Qed.

Lemma nat_lowerByte (c : ascii) :
  nat_of_ascii (strings.lowerByte c) =
  if ((65 <=? nat_of_ascii c) && (nat_of_ascii c <=? 90))%nat
  then (nat_of_ascii c + 32)%nat else nat_of_ascii c.
Proof.
  unfold strings.lowerByte.
  destruct ((65 <=? nat_of_ascii c)%nat && (nat_of_ascii c <=? 90)%nat) eqn:E;
    [|reflexivity].
  apply andb_true_iff in E as [_ E]. apply Nat.leb_le in E.
  apply nat_ascii_embedding. lia.
Qed.

Lemma nat_of_ascii_inj (a b : ascii) : nat_of_ascii a = nat_of_ascii b -> a = b.
Proof.
  intros H. rewrite <- (ascii_nat_embedding a), <- (ascii_nat_embedding b).
  now rewrite H.
Qed.

Lemma sameLetter_iff (a b : ascii) :
  sameLetter a b = true <-> strings.lowerByte a = strings.lowerByte b.
Proof.
  assert (N : sameLetter a b = true <->
              nat_of_ascii (strings.lowerByte a) = nat_of_ascii (strings.lowerByte b)).
  { rewrite !nat_lowerByte. unfold sameLetter.
    set (x := nat_of_ascii a). set (y := nat_of_ascii b).
    destruct (Nat.leb_spec 65 x), (Nat.leb_spec x 90), (Nat.leb_spec 65 y),
      (Nat.leb_spec y 90), (Nat.eqb_spec x y), (Nat.eqb_spec y (x + 32)),
      (Nat.eqb_spec x (y + 32)); cbn [andb orb];
      split; intros Hyp; try discriminate Hyp; try reflexivity; lia. }
  rewrite N. split; [apply nat_of_ascii_inj | now intros ->].
Qed.

Lemma EqualFold_iff (s t : string) :
  EqualFold s t = true <-> strings.toLowerASCII s = strings.toLowerASCII t.
Proof.
  revert t; induction s as [|a s IH]; intros [|b t]; simpl;
    try (split; [discriminate | discriminate]); [tauto|].
  rewrite andb_true_iff, sameLetter_iff, IH. split.
  - intros [-> ->]. reflexivity.
  - intros H. injection H as H1 H2. now split.
Qed.

(** A split of [toLowerASCII s] comes from a split of [s]. *)
Lemma toLowerASCII_split (s a b : string) :
  strings.toLowerASCII s = a ++ b ->
  exists s1 s2, s = s1 ++ s2 /\ strings.toLowerASCII s1 = a /\ strings.toLowerASCII s2 = b.
Proof.
  revert s; induction a as [|x a IH]; intros s H; simpl in H.
  - exists EmptyString, s. auto.
  - destruct s as [|c s]; [discriminate|]. simpl in H. injection H as Hx H.
    destruct (IH _ H) as [s1 [s2 [-> [H1 H2]]]].
    exists (String c s1), s2. simpl. now rewrite Hx, H1, H2.
Qed.

(** Containment up to case is containment after the ASCII loop. *)
Lemma containsFold_iff (s k : string) :
  containsFold s k <->
  strings.Contains (strings.toLowerASCII s) (strings.toLowerASCII k) = true.
Proof.
  rewrite Contains_iff. unfold containsFold, occursIn. split.
  - intros [pre [mid [post [-> H]]]]. apply EqualFold_iff in H.
    exists (strings.toLowerASCII pre), (strings.toLowerASCII post).
    now rewrite !toLowerASCII_append, H.
  - intros [pre [post H]].
    apply toLowerASCII_split in H as [s1 [s' [-> [H1 H]]]].
    apply toLowerASCII_split in H as [s2 [s3 [-> [H2 H3]]]].
    exists s1, s2, s3. split; [reflexivity|].
    apply EqualFold_iff. exact H2.
Qed.

Lemma keywords_lower (k : string) :
  In k keywords -> strings.toLowerASCII k = k.
Proof.
  unfold keywords. simpl.
  intros H; repeat (destruct H as [<- | H]; [reflexivity|]); contradiction.
Qed.

Lemma isJobEmail_iff (subject : string) :
  isJobEmail subject = true <->
  exists k, In k keywords /\ strings.Contains subject k = true.
Proof.
  unfold isJobEmail, keywords. rewrite !orb_true_iff. split.
  - intros H.
    repeat match goal with D : _ \/ _ |- _ => destruct D as [D | D] end;
      (eexists; split; [| eassumption]; simpl; tauto).
  - intros [k [Hin H]]. simpl in Hin.
    repeat (destruct Hin as [<- | Hin]; [tauto|]). contradiction.
Qed.

End StringFacts.

(** ** The subject filter *)

Section SubjectFacts.

Variable MapToLower : string -> string.

Lemma toLowerASCII_no_upper (s : string) :
  strings.hasUpper s = false -> strings.toLowerASCII s = s.
Proof.
  induction s as [|c s IH]; cbn [strings.hasUpper strings.toLowerASCII];
    [reflexivity|].
  intros H. apply orb_false_iff in H as [H1 H2].
  unfold strings.lowerByte. now rewrite H1, (IH H2).
Qed.

(** On a string of ASCII bytes [strings.ToLower] is the byte loop. *)
Lemma ToLower_ASCII (s : string) :
  strings.isASCII s = true ->
  strings.ToLower MapToLower s = strings.toLowerASCII s.
Proof.
  intros A. unfold strings.ToLower. rewrite A.
  destruct (strings.hasUpper s) eqn:U; [reflexivity|].
  symmetry. now apply toLowerASCII_no_upper.
Qed.

(** C3, as the code has it: the filter stage accepts a subject exactly when
    the subject in lower case, as [strings.ToLower] returns it, contains
    one of the eight keywords of [isJobEmail], the seven listed ones and
    ["thanks from"]; for a subject of ASCII bytes that is exactly when the
    subject contains one of the eight with the case of its letters
    ignored. *)
Theorem subjectFilter_keywords (S : string) :
  (subjectFilter MapToLower S = true <->
   exists k, In k keywords /\ occursIn k (strings.ToLower MapToLower S)) /\
  (strings.isASCII S = true ->
   (subjectFilter MapToLower S = true <->
    exists k, In k keywords /\ containsFold S k)).
Proof.
  unfold subjectFilter. rewrite isJobEmail_iff. split.
  - split; intros [k [Hin H]]; exists k; (split; [exact Hin|]);
      now apply Contains_iff.
  - intros A. rewrite (ToLower_ASCII S A).
    split; intros [k [Hin H]]; exists k; (split; [exact Hin|]).
    + apply containsFold_iff. now rewrite (keywords_lower k Hin).
    + apply containsFold_iff in H. now rewrite (keywords_lower k Hin) in H.
Qed.

End SubjectFacts.

(** C3, as stated, fails: the subject ["Thanks from Acme"], of ASCII bytes,
    passes the filter and contains none of the seven listed keywords,
    whatever the case of its letters. *)
Lemma subjectFilter_listed_counterexample :
  subjectFilter SampleCase.MapToLower "Thanks from Acme" = true /\
  strings.isASCII "Thanks from Acme" = true /\
  ~ exists k, In k listedKeywords /\ containsFold "Thanks from Acme" k.
Proof.
  split; [reflexivity|]. split; [reflexivity|].
  intros [k [Hin H]]. apply containsFold_iff in H.
  unfold listedKeywords in Hin. simpl in Hin.
  repeat (destruct Hin as [<- | Hin]; [vm_compute in H; discriminate|]).
  contradiction.
Qed.

(** ** The pattern [<[^>]*>] *)

Section TagFacts.

Open Scope string_scope.

Lemma hasClose_split (s : string) :
  regexp.hasClose s = true ->
  exists inner rest, s = inner ++ String ">" rest /\ noClose inner.
Proof.
  induction s as [|c s IH]; simpl; [discriminate|].
  destruct (Ascii.eqb c ">") eqn:E; simpl.
  - apply Ascii.eqb_eq in E as ->. intros _.
    exists EmptyString, s. simpl. auto.
  - intros H. destruct (IH H) as [inner [rest [-> Hn]]].
    exists (String c inner), rest. simpl. repeat split; auto.
    now apply Ascii.eqb_neq.
Qed.

Lemma hasClose_append (a b : string) :
  regexp.hasClose (a ++ String ">" b) = true.
Proof.
  induction a as [|c a IH]; simpl; [reflexivity|].
  rewrite IH. apply orb_true_r.
Qed.

Lemma scanTags_inside (inner rest : string) :
  noClose inner ->
  regexp.scanTags true (inner ++ String ">" rest) = regexp.scanTags false rest.
Proof.
  induction inner as [|c inner IH]; simpl; [reflexivity|].
  intros [Hc Hn]. apply Ascii.eqb_neq in Hc. rewrite Hc. auto.
Qed.

Lemma tag_shape (t rest : string) :
  isTag t ->
  exists inner, noClose inner /\ t ++ rest = String "<" (inner ++ String ">" rest).
Proof.
  intros [inner [-> Hn]]. exists inner. split; [exact Hn|].
  simpl. now rewrite append_assoc.
Qed.

Lemma removeTags_tag (t rest : string) :
  isTag t -> regexp.removeTags (t ++ rest) = regexp.removeTags rest.
Proof.
  intros Ht. destruct (tag_shape t rest Ht) as [inner [Hn ->]].
  unfold regexp.removeTags. simpl.
  rewrite hasClose_append. now apply scanTags_inside.
Qed.

Lemma removeTags_keep (c : ascii) (rest : string) :
  (forall t rest', isTag t -> String c rest <> t ++ rest') ->
  regexp.removeTags (String c rest) = String c (regexp.removeTags rest).
Proof.
  intros Hno. unfold regexp.removeTags. simpl.
  destruct (Ascii.eqb c "<" && regexp.hasClose rest) eqn:E; [|reflexivity].
  apply andb_true_iff in E as [Ec Hc]. apply Ascii.eqb_eq in Ec as ->.
  destruct (hasClose_split _ Hc) as [inner [rest' [-> Hn]]].
  exfalso. apply (Hno (String "<" inner ++ ">") rest').
  - now exists inner.
  - simpl. now rewrite append_assoc.
Qed.

(** The relation [TagsRemoved] has one result, the one [removeTags]
    computes. *)
Lemma TagsRemoved_removeTags (s out : string) :
  TagsRemoved s out -> out = regexp.removeTags s.
Proof.
  induction 1 as [|t rest out Ht _ IH|c rest out Hno _ IH].
  - reflexivity.
  - now rewrite removeTags_tag.
  - rewrite removeTags_keep by exact Hno. now rewrite IH.
Qed.

Lemma length_append (a b : string) :
  String.length (a ++ b) = String.length a + String.length b.
Proof. induction a as [|c a IH]; simpl; [reflexivity | now rewrite IH]. Qed.

Lemma removeTags_TagsRemoved (s : string) :
  TagsRemoved s (regexp.removeTags s).
Proof.
  remember (String.length s) as n eqn:Hn.
  revert s Hn. induction n as [n IH] using lt_wf_ind. intros s Hn.
  destruct s as [|c s]; [constructor|].
  destruct (Ascii.eqb c "<" && regexp.hasClose s) eqn:E.
  - apply andb_true_iff in E as [Ec Hc]. apply Ascii.eqb_eq in Ec as ->.
    destruct (hasClose_split _ Hc) as [inner [rest [-> Hi]]].
    assert (Ht : isTag (String "<" inner ++ ">")) by now exists inner.
    replace (String "<" (inner ++ String ">" rest))
      with ((String "<" inner ++ ">") ++ rest)
      by (simpl; now rewrite append_assoc).
    rewrite removeTags_tag by exact Ht.
    apply removed_tag; [exact Ht|].
    apply (IH (String.length rest)); [|reflexivity].
    subst n. simpl. rewrite length_append. simpl. lia.
  - assert (Hno : forall t rest', isTag t -> String c s <> t ++ rest').
    { intros t rest' Ht Heq.
      destruct (tag_shape t rest' Ht) as [inner [_ Hs]].
      rewrite Hs in Heq. injection Heq as -> ->.
      now rewrite hasClose_append in E. }
    rewrite removeTags_keep by exact Hno.
    apply removed_keep; [exact Hno|].
    apply (IH (String.length s)); [subst n; simpl; lia | reflexivity].
Qed.

Lemma hasClose_scanTags (b : bool) (s : string) :
  regexp.hasClose s = false -> regexp.hasClose (regexp.scanTags b s) = false.
Proof.
  revert b; induction s as [|c s IH]; intros b; simpl; [reflexivity|].
  intros H. apply orb_false_iff in H as [Hc Hs].
  rewrite Hc, Hs, andb_false_r.
  destruct b; simpl; [auto|]. now rewrite Hc, IH.
Qed.

Lemma scanTags_open (b : bool) (s pre post : string) :
  regexp.scanTags b s = pre ++ String "<" post -> regexp.hasClose post = false.
Proof.
  revert b pre; induction s as [|c s IH]; intros b pre; simpl.
  - destruct pre; discriminate.
  - destruct b.
    + destruct (Ascii.eqb c ">"); apply IH.
    + destruct (Ascii.eqb c "<" && regexp.hasClose s) eqn:E; [apply IH|].
      destruct pre as [|x pre]; simpl; intros H; injection H as Hc H.
      * subst c. simpl in E. rewrite <- H. now apply hasClose_scanTags.
      * eapply IH; exact H.
Qed.

(** No match of the pattern is left in the result. *)
Lemma removeTags_no_tag (s t : string) :
  isTag t -> ~ occursIn t (regexp.removeTags s).
Proof.
  intros [inner [-> _]] [pre [post H]].
  simpl in H. rewrite append_assoc in H.
  apply scanTags_open in H. simpl in H.
  now rewrite hasClose_append in H.
Qed.

End TagFacts.

(** ** [strings.ReplaceAll] *)

Section ReplaceFacts.

Open Scope string_scope.

Lemma replaceFrom_skip (a rest old new : string) :
  strings.replaceFrom (String.length a) (a ++ rest) old new =
  strings.replaceFrom 0 rest old new.
Proof. induction a as [|c a IH]; simpl; [reflexivity | exact IH]. Qed.

(** An occurrence at the head is replaced, and the scan goes on behind
    it. *)
Lemma ReplaceAll_match (old new rest : string) :
  old <> EmptyString ->
  strings.ReplaceAll (old ++ rest) old new = new ++ strings.ReplaceAll rest old new.
Proof.
  destruct old as [|c old]; [congruence|]. intros _.
  unfold strings.ReplaceAll.
  change (String c old ++ rest) with (String c (old ++ rest)).
  cbn [strings.replaceFrom].
  replace (strings.HasPrefix (String c (old ++ rest)) (String c old)) with true
    by (symmetry; apply HasPrefix_iff; now exists rest).
  replace (String.length (String c old) - 1) with (String.length old)
    by (simpl; lia).
  now rewrite replaceFrom_skip.
Qed.

(** A byte at which no occurrence starts is kept. *)
Lemma ReplaceAll_keep (c : ascii) (s old new : string) :
  strings.HasPrefix (String c s) old = false ->
  strings.ReplaceAll (String c s) old new = String c (strings.ReplaceAll s old new).
Proof. intros H. unfold strings.ReplaceAll. cbn [strings.replaceFrom]. now rewrite H. Qed.

(** With one byte for one byte, [ReplaceAll] maps the bytes. *)
Lemma ReplaceAll_byte (old new : ascii) (s : string) :
  strings.ReplaceAll s (String old EmptyString) (String new EmptyString) =
  mapByte old new s.
Proof.
  unfold strings.ReplaceAll.
  induction s as [|c s IH]; [reflexivity|].
  cbn [strings.replaceFrom strings.HasPrefix mapByte String.length Nat.sub].
  rewrite andb_true_r. destruct (Ascii.eqb c old); simpl; now rewrite IH.
Qed.

End ReplaceFacts.

(** The function computes the relation [Replaced]. *)
Lemma ReplaceAll_Replaced (old new s : string) :
  old <> EmptyString -> Replaced old new s (strings.ReplaceAll s old new).
Proof.
  intros Hold.
  remember (String.length s) as n eqn:Hn.
  revert s Hn. induction n as [n IH] using lt_wf_ind. intros s Hn.
  destruct s as [|c s]; [constructor|].
  destruct (strings.HasPrefix (String c s) old) eqn:P.
  - apply HasPrefix_iff in P as [rest P]. rewrite P.
    rewrite ReplaceAll_match by exact Hold.
    apply replaced_here.
    apply (IH (String.length rest)); [|reflexivity].
    subst n. rewrite P, length_append.
    destruct old; [congruence | simpl; lia].
  - rewrite ReplaceAll_keep by exact P.
    apply replaced_keep; [exact P|].
    apply (IH (String.length s)); [subst n; simpl; lia | reflexivity].
Qed.

(** ** [strings.TrimSpace] *)

Section TrimFacts.

Open Scope string_scope.

Lemma trimLeading_split (fwd : bool) (n : nat) (s : string) :
  String.length s <= n ->
  exists l, s = l ++ strings.trimLeading fwd s /\ Spaces fwd l.
Proof.
  revert s; induction n as [|n IH]; intros s Hn.
  - destruct s; [|simpl in Hn; lia]. exists EmptyString. split; constructor.
  - destruct s as [|c1 r1]; [exists EmptyString; split; constructor|].
    cbn [strings.trimLeading]. simpl in Hn.
    destruct (strings.asciiSpace c1) eqn:A1.
    { destruct (IH r1 ltac:(lia)) as [l [E L]].
      exists (String c1 l). split; [simpl; now rewrite <- E | now constructor]. }
    destruct r1 as [|c2 r2]; [exists EmptyString; split; constructor|].
    simpl in Hn.
    destruct (if fwd then strings.space2 c1 c2 else strings.space2 c2 c1) eqn:A2.
    { destruct (IH r2 ltac:(lia)) as [l [E L]].
      exists (String c1 (String c2 l)).
      split; [simpl; now rewrite <- E | now constructor]. }
    destruct r2 as [|c3 r3]; [exists EmptyString; split; constructor|].
    simpl in Hn.
    destruct (if fwd then strings.space3 c1 c2 c3 else strings.space3 c3 c2 c1) eqn:A3.
    { destruct (IH r3 ltac:(lia)) as [l [E L]].
      exists (String c1 (String c2 (String c3 l))).
      split; [simpl; now rewrite <- E | now constructor]. }
    exists EmptyString. split; constructor.
Qed.

Lemma trimLeading_done (fwd : bool) (n : nat) (s : string) :
  String.length s <= n ->
  startsWithSpace fwd (strings.trimLeading fwd s) = false.
Proof.
  revert s; induction n as [|n IH]; intros s Hn.
  - destruct s; [reflexivity | simpl in Hn; lia].
  - destruct s as [|c1 r1]; [reflexivity|].
    cbn [strings.trimLeading]. simpl in Hn.
    destruct (strings.asciiSpace c1) eqn:A1; [apply IH; lia|].
    destruct r1 as [|c2 r2]; [simpl; now rewrite A1|].
    simpl in Hn.
    destruct (if fwd then strings.space2 c1 c2 else strings.space2 c2 c1) eqn:A2;
      [apply IH; lia|].
    destruct r2 as [|c3 r3]; [simpl; now rewrite A1, A2|].
    simpl in Hn.
    destruct (if fwd then strings.space3 c1 c2 c3 else strings.space3 c3 c2 c1) eqn:A3;
      [apply IH; lia|].
    simpl. now rewrite A1, A2, A3.
Qed.

Lemma reverse_acc (acc s : string) :
  strings.reverse acc s = strings.reverse EmptyString s ++ acc.
Proof.
  revert acc; induction s as [|c s IH]; intros acc; simpl; [reflexivity|].
  rewrite (IH (String c acc)), (IH (String c EmptyString)).
  now rewrite append_assoc.
Qed.

Lemma reverse_append (a b : string) :
  strings.reverse EmptyString (a ++ b) =
  strings.reverse EmptyString b ++ strings.reverse EmptyString a.
Proof.
  induction a as [|c a IH]; simpl.
  - now rewrite append_nil_r.
  - rewrite (reverse_acc (String c EmptyString) (a ++ b)), IH.
    rewrite (reverse_acc (String c EmptyString) a). now rewrite append_assoc.
Qed.

Lemma reverse_involutive (s : string) :
  strings.reverse EmptyString (strings.reverse EmptyString s) = s.
Proof.
  induction s as [|c s IH]; simpl; [reflexivity|].
  rewrite (reverse_acc (String c EmptyString) s), reverse_append, IH.
  reflexivity.
Qed.

Lemma Spaces_append (fwd : bool) (a b : string) :
  Spaces fwd a -> Spaces fwd b -> Spaces fwd (a ++ b).
Proof.
  intros Ha Hb; induction Ha; simpl; [exact Hb | | |]; now constructor.
Qed.

(** White space read backwards is white space. *)
Lemma Spaces_reverse (s : string) :
  Spaces false s -> Spaces true (strings.reverse EmptyString s).
Proof.
  intros H; induction H as [|c rest A _ IH|c1 c2 rest A _ IH|c1 c2 c3 rest A _ IH].
  - constructor.
  - change (String c rest) with (String c EmptyString ++ rest).
    rewrite reverse_append. apply Spaces_append; [exact IH|].
    simpl. now repeat constructor.
  - change (String c1 (String c2 rest))
      with (String c1 (String c2 EmptyString) ++ rest).
    rewrite reverse_append. apply Spaces_append; [exact IH|].
    simpl. apply spaces_two; [exact A | constructor].
  - change (String c1 (String c2 (String c3 rest)))
      with (String c1 (String c2 (String c3 EmptyString)) ++ rest).
    rewrite reverse_append. apply Spaces_append; [exact IH|].
    simpl. apply spaces_three; [exact A | constructor].
Qed.

Lemma startsWithSpace_append (fwd : bool) (a b : string) :
  startsWithSpace fwd a = true -> startsWithSpace fwd (a ++ b) = true.
Proof.
  destruct a as [|c1 [|c2 [|c3 a]]]; simpl; try discriminate.
  - rewrite orb_false_r. now intros ->.
  - rewrite orb_false_r. intros H. apply orb_true_iff in H as [-> | H];
      [reflexivity|].
    destruct b; simpl; rewrite H; simpl; now rewrite ?orb_true_r.
  - auto.
Qed.

(** [TrimSpace] drops white space at the two ends, and nothing but white
    space, and leaves none there. *)
Lemma TrimSpace_Trimmed (s : string) : Trimmed s (strings.TrimSpace s).
Proof.
  unfold Trimmed, strings.TrimSpace, endsWithSpace.
  set (t1 := strings.trimLeading true s).
  set (t2 := strings.trimLeading false (strings.reverse EmptyString t1)).
  destruct (trimLeading_split true _ s (le_n _)) as [l [E1 L1]].
  destruct (trimLeading_split false _ (strings.reverse EmptyString t1) (le_n _))
    as [r [E2 L2]].
  fold t1 in E1. fold t2 in E2.
  assert (E3 : t1 = strings.reverse EmptyString t2 ++ strings.reverse EmptyString r).
  { rewrite <- reverse_append, <- E2. symmetry. apply reverse_involutive. }
  exists l, (strings.reverse EmptyString r). repeat split.
  - now rewrite <- E3.
  - exact L1.
  - now apply Spaces_reverse.
  - destruct (startsWithSpace true (strings.reverse EmptyString t2)) eqn:S;
      [|reflexivity].
    apply (startsWithSpace_append true _ (strings.reverse EmptyString r)) in S.
    rewrite <- E3 in S. unfold t1 in S.
    now rewrite (trimLeading_done true _ s (le_n _)) in S.
  - rewrite reverse_involutive. unfold t2.
    apply (trimLeading_done false _ _ (le_n _)).
Qed.

End TrimFacts.

(** ** The body extractor *)

Section BodyFacts.

Variable ParseMediaType : string -> option string.

Local Abbreviation partsLoop := (partsLoop ParseMediaType).
Local Abbreviation getBodyText := (getBodyText ParseMediaType).
Local Abbreviation isPlain := (isPlain ParseMediaType).
Local Abbreviation isHTML := (isHTML ParseMediaType).
Local Abbreviation notPlain := (notPlain ParseMediaType).
Local Abbreviation notHTML := (notHTML ParseMediaType).
Local Abbreviation remember := (remember ParseMediaType).
Local Abbreviation remembered := (remembered ParseMediaType).
Local Abbreviation passedPlain := (passedPlain ParseMediaType).
Local Abbreviation passedHTML := (passedHTML ParseMediaType).

Lemma partsLoop_notPlain (htmlBody : string) (p : mail.Part) (rest : list mail.Part) :
  notPlain p ->
  partsLoop htmlBody (p :: rest) = partsLoop (remember htmlBody p) rest.
Proof.
  unfold notPlain, isPlain, remember,
    isHTML, hasMediaPrefix, mediaTypeOf.
  cbn [partsLoop].
  destruct (String.eqb (mail.ContentType p) EmptyString); [reflexivity|].
  destruct (ParseMediaType (mail.ContentType p)) as [mediaType|]; [|reflexivity].
  intros ->.
  destruct (mail.Body p) as [buf|];
    destruct (strings.HasPrefix mediaType "text/html"); reflexivity.
Qed.

Lemma partsLoop_prefix (pre rest : list mail.Part) (htmlBody : string) :
  Forall notPlain pre ->
  partsLoop htmlBody (pre ++ rest) = partsLoop (remembered htmlBody pre) rest.
Proof.
  intros H; revert htmlBody; induction H as [|p pre Hp _ IH]; intros htmlBody.
  - reflexivity.
  - rewrite <- app_comm_cons, partsLoop_notPlain by exact Hp. apply IH.
Qed.

Lemma partsLoop_exhausted (ps : list mail.Part) (htmlBody : string) :
  Forall notPlain ps -> partsLoop htmlBody ps = Broke (remembered htmlBody ps).
Proof.
  intros H. rewrite <- (app_nil_r ps) at 1.
  now rewrite partsLoop_prefix.
Qed.

Lemma partsLoop_plain (htmlBody text : string) (p : mail.Part) (rest : list mail.Part) :
  isPlain p = true -> mail.Body p = Some text ->
  partsLoop htmlBody (p :: rest) = Returned text rest.
Proof.
  unfold isPlain, hasMediaPrefix, mediaTypeOf.
  cbn [partsLoop].
  destruct (String.eqb (mail.ContentType p) EmptyString); [discriminate|].
  destruct (ParseMediaType (mail.ContentType p)) as [mediaType|]; [|discriminate].
  intros -> ->. reflexivity.
Qed.

Lemma remembered_no_html (ps : list mail.Part) (htmlBody : string) :
  Forall notHTML ps -> remembered htmlBody ps = htmlBody.
Proof.
  intros H; revert htmlBody; induction H as [|p ps Hp _ IH]; intros htmlBody.
  - reflexivity.
  - unfold remembered in *. simpl.
    unfold remember at 2. rewrite Hp. apply IH.
Qed.

(** The text remembered at the end is that of the last HTML part. *)
Lemma remembered_last (pre post : list mail.Part) (h : mail.Part)
    (htmlBody text : string) :
  isHTML h = true -> mail.Body h = Some text -> Forall notHTML post ->
  remembered htmlBody (pre ++ h :: post) = text.
Proof.
  intros Hh Hb Hpost. unfold remembered.
  rewrite fold_left_app. simpl.
  unfold remember at 2. rewrite Hh, Hb.
  now apply remembered_no_html.
Qed.

Lemma stripHTMLTags_empty : stripHTMLTags EmptyString = EmptyString.
Proof. reflexivity. Qed.

Lemma getBodyText_exhausted env (ps : list mail.Part) :
  Forall notPlain ps ->
  getBodyText (messageOf env ps) = stripHTMLTags (remembered EmptyString ps).
Proof.
  intros H. unfold getBodyText, messageOf. cbn [imap.GetBody].
  rewrite partsLoop_exhausted by exact H.
  destruct (String.eqb_spec (remembered EmptyString ps) EmptyString) as [E|E].
  - rewrite E. reflexivity.
  - reflexivity.
Qed.

Lemma partsLoop_passed (htmlBody : string) (p : mail.Part) (rest : list mail.Part) :
  passedPlain p ->
  partsLoop htmlBody (p :: rest) = partsLoop (remember htmlBody p) rest.
Proof.
  intros [H | H]; [now apply partsLoop_notPlain|].
  unfold remember. rewrite H. cbn [partsLoop].
  destruct (String.eqb (mail.ContentType p) EmptyString);
    [now destruct (isHTML p)|].
  destruct (ParseMediaType (mail.ContentType p)); rewrite ?H;
    now destruct (isHTML p).
Qed.

Lemma partsLoop_passed_prefix (pre rest : list mail.Part) (htmlBody : string) :
  Forall passedPlain pre ->
  partsLoop htmlBody (pre ++ rest) = partsLoop (remembered htmlBody pre) rest.
Proof.
  intros H; revert htmlBody; induction H as [|p pre Hp _ IH]; intros htmlBody.
  - reflexivity.
  - rewrite <- app_comm_cons, partsLoop_passed by exact Hp. apply IH.
Qed.

Lemma getBodyText_passed env (ps : list mail.Part) :
  Forall passedPlain ps ->
  partsLoop EmptyString ps = Broke (remembered EmptyString ps) /\
  getBodyText (messageOf env ps) = stripHTMLTags (remembered EmptyString ps).
Proof.
  intros H.
  assert (L : partsLoop EmptyString ps = Broke (remembered EmptyString ps)).
  { rewrite <- (app_nil_r ps) at 1. now rewrite partsLoop_passed_prefix. }
  split; [exact L|].
  unfold getBodyText, messageOf. cbn [imap.GetBody]. rewrite L.
  destruct (String.eqb_spec (remembered EmptyString ps) EmptyString) as [E|E].
  - rewrite E. reflexivity.
  - reflexivity.
Qed.

Lemma remembered_passed (ps : list mail.Part) (htmlBody : string) :
  Forall passedHTML ps -> remembered htmlBody ps = htmlBody.
Proof.
  intros H; revert htmlBody; induction H as [|p ps Hp _ IH]; intros htmlBody.
  - reflexivity.
  - unfold remembered in *. cbn [fold_left].
    replace (remember htmlBody p) with htmlBody; [apply IH|].
    unfold remember. destruct Hp as [-> | ->]; [reflexivity|].
    now destruct (isHTML p).
Qed.

(** The text remembered at the end is that of the last HTML part that was
    read. *)
Lemma remembered_last_read (pre post : list mail.Part) (h : mail.Part)
    (htmlBody text : string) :
  isHTML h = true -> mail.Body h = Some text -> Forall passedHTML post ->
  remembered htmlBody (pre ++ h :: post) = text.
Proof.
  intros Hh Hb Hpost. unfold remembered.
  rewrite fold_left_app. cbn [fold_left].
  unfold remember at 2. rewrite Hh, Hb.
  now apply remembered_passed.
Qed.

Lemma handedOver_handed (pre : list mail.Part) (rest : list NextPart) :
  handedOver (map Handed pre ++ rest) = pre ++ handedOver rest.
Proof. induction pre as [|p pre IH]; simpl; [reflexivity | now rewrite IH]. Qed.

Lemma firstPlain_here (pre : list mail.Part) (p : mail.Part) (post : list NextPart) :
  Forall notPlain pre -> isPlain p = true ->
  firstPlain ParseMediaType (map Handed pre ++ Handed p :: post) = Some p.
Proof.
  intros H Hp. unfold firstPlain.
  induction H as [|q pre Hq _ IH]; simpl.
  - now rewrite Hp.
  - unfold notPlain in Hq. now rewrite Hq.
Qed.

(** Every list of MIME parts has one of three shapes: a plain-text part
    that is handed over and read, behind parts that are handed over and
    passed; a part at which [NextPart] fails, behind such parts; or such
    parts only. *)
Lemma NextPart_shapes (es : list NextPart) :
  (exists pre p post text,
     es = map Handed pre ++ Handed p :: post /\ Forall passedPlain pre /\
     isPlain p = true /\ mail.Body p = Some text) \/
  (exists pre q post,
     es = map Handed pre ++ Failed q :: post /\ Forall passedPlain pre) \/
  (exists pre, es = map Handed pre /\ Forall passedPlain pre).
Proof.
  induction es as [|e es IH].
  - right. right. exists []. split; [reflexivity | constructor].
  - destruct e as [p|q].
    + destruct (isPlain p) eqn:P; [destruct (mail.Body p) as [text|] eqn:B|].
      * left. exists [], p, es, text. repeat split; auto.
      * destruct IH as [(pre & p' & post & text & -> & F & H1 & H2)
                       |[(pre & q & post & -> & F)|(pre & -> & F)]].
        -- left. exists (p :: pre), p', post, text.
           repeat split; auto. constructor; [now right | exact F].
        -- right. left. exists (p :: pre), q, post.
           split; [reflexivity|]. constructor; [now right | exact F].
        -- right. right. exists (p :: pre).
           split; [reflexivity|]. constructor; [now right | exact F].
      * destruct IH as [(pre & p' & post & text & -> & F & H1 & H2)
                       |[(pre & q & post & -> & F)|(pre & -> & F)]].
        -- left. exists (p :: pre), p', post, text.
           repeat split; auto. constructor; [now left | exact F].
        -- right. left. exists (p :: pre), q, post.
           split; [reflexivity|]. constructor; [now left | exact F].
        -- right. right. exists (p :: pre).
           split; [reflexivity|]. constructor; [now left | exact F].
    + right. left. exists [], q, es. split; [reflexivity | constructor].
Qed.

(** C2, as the code has it: behind parts that [NextPart] hands over and
    that are of another media type, or plain-text parts whose body cannot
    be read, a plain-text part [p] that is handed over and read gives the
    body, wherever HTML parts stand among the others, and the parts behind
    [p] are never asked for; [p] is the first plain-text part of the
    message when no part before it is one.  When [NextPart] fails behind
    such parts, or the parts end, the loop ends there, with the HTML
    fallback of the parts handed over. *)
Theorem getBodyText_first_plain env (pre : list mail.Part) :
  Forall passedPlain pre ->
  (forall p post text,
     isPlain p = true -> mail.Body p = Some text ->
     partsLoop EmptyString (handedOver (map Handed pre ++ Handed p :: post)) =
       Returned text (handedOver post) /\
     getBodyText (messageWith env (map Handed pre ++ Handed p :: post)) = text /\
     (Forall notPlain pre ->
      firstPlain ParseMediaType (map Handed pre ++ Handed p :: post) = Some p)) /\
  (forall q post,
     getBodyText (messageWith env (map Handed pre ++ Failed q :: post)) =
     stripHTMLTags (remembered EmptyString pre)) /\
  getBodyText (messageWith env (map Handed pre)) =
    stripHTMLTags (remembered EmptyString pre).
Proof.
  intros Hpre. split; [|split].
  - intros p post text Hp Hb.
    assert (L : partsLoop EmptyString
                  (handedOver (map Handed pre ++ Handed p :: post)) =
                Returned text (handedOver post)).
    { rewrite handedOver_handed. cbn [handedOver].
      rewrite partsLoop_passed_prefix by exact Hpre.
      now apply partsLoop_plain. }
    split; [exact L|]. split.
    + unfold messageWith, getBodyText, messageOf.
      cbn [imap.GetBody]. now rewrite L.
    + intros Hn. now apply firstPlain_here.
  - intros q post. unfold messageWith.
    rewrite handedOver_handed. cbn [handedOver]. rewrite app_nil_r.
    now apply getBodyText_passed.
  - unfold messageWith.
    rewrite <- (app_nil_r (map Handed pre)), handedOver_handed.
    cbn [handedOver]. rewrite app_nil_r.
    now apply getBodyText_passed.
Qed.

(** C9, as the code has it: when no plain-text part is handed over and
    read, the fallback works on the text of the last HTML part that is
    handed over and read: every HTML part read replaces the text
    remembered from the one before, and an HTML part whose body cannot be
    read, or at which [NextPart] fails, leaves it as it is. *)
Theorem getBodyText_last_html env (es : list NextPart)
    (pre post : list mail.Part) (h : mail.Part) (text : string) :
  handedOver es = pre ++ h :: post ->
  Forall passedPlain (pre ++ h :: post) ->
  isHTML h = true -> mail.Body h = Some text -> Forall passedHTML post ->
  partsLoop EmptyString (handedOver es) = Broke text /\
  getBodyText (messageWith env es) = stripHTMLTags text.
Proof.
  intros E Hall Hh Hb Hpost. unfold messageWith. rewrite E.
  destruct (getBodyText_passed env _ Hall) as [L G].
  rewrite L, G.
  now rewrite (remembered_last_read pre post h EmptyString text).
Qed.

Lemma asciiSpace_bytes (c : ascii) :
  strings.asciiSpace c = false -> ~ In (nat_of_ascii c) spaceBytes.
Proof.
  unfold strings.asciiSpace, spaceBytes. intros H.
  apply orb_false_iff in H as [H1 H2].
  apply Nat.eqb_neq in H2. apply andb_false_iff in H1.
  intros Hin. simpl in Hin.
  destruct H1 as [H1 | H1]; [apply Nat.leb_gt in H1 | apply Nat.leb_gt in H1];
    repeat (destruct Hin as [Hin | Hin]; [lia|]); contradiction.
Qed.

(** C6, as the code has it: when no plain-text part is handed over and
    read, and an HTML part is, the body is the text of the last such HTML
    part with the matches of [<[^>]*>] removed, then every [&nbsp;]
    replaced by one space, then the white space at both ends dropped, so
    that it neither starts nor ends with a white-space byte; the one HTML
    part [<b>Hello</b>&nbsp;World] gives [Hello World], also with white
    space around it. *)
Theorem getBodyText_html_fallback env (es : list NextPart)
    (pre post : list mail.Part) (h : mail.Part) (html : string) :
  handedOver es = pre ++ h :: post ->
  Forall passedPlain (pre ++ h :: post) ->
  isHTML h = true -> mail.Body h = Some html -> Forall passedHTML post ->
  (exists text spaced,
     TagsRemoved html text /\
     (forall t, isTag t -> ~ occursIn t text) /\
     Replaced "&nbsp;" " " text spaced /\
     Trimmed spaced (getBodyText (messageWith env es)) /\
     getBodyText (messageWith env es) =
       strings.TrimSpace
         (strings.ReplaceAll (regexp.removeTags html) "&nbsp;" " ")) /\
  (forall c rest,
     getBodyText (messageWith env es) = String c rest ->
     ~ In (nat_of_ascii c) spaceBytes) /\
  (forall front c,
     getBodyText (messageWith env es) = (front ++ String c EmptyString)%string ->
     ~ In (nat_of_ascii c) spaceBytes) /\
  (html = "<b>Hello</b>&nbsp;World"%string ->
   getBodyText (messageWith env es) = "Hello World"%string) /\
  (html = (newline ++ "  <b>Hello</b>&nbsp;World " ++ newline)%string ->
   getBodyText (messageWith env es) = "Hello World"%string).
Proof.
  intros E Hall Hh Hb Hpost.
  assert (G : getBodyText (messageWith env es) = stripHTMLTags html).
  { unfold messageWith. rewrite E.
    destruct (getBodyText_passed env _ Hall) as [_ ->].
    now rewrite (remembered_last_read pre post h EmptyString html). }
  destruct (TrimSpace_Trimmed
              (strings.ReplaceAll (regexp.removeTags html) "&nbsp;" " "))
    as (l & r & _ & _ & _ & S1 & S2).
  fold (stripHTMLTags html) in S1, S2. rewrite <- G in S1, S2.
  split; [|split; [|split; [|split]]].
  - exists (regexp.removeTags html),
      (strings.ReplaceAll (regexp.removeTags html) "&nbsp;" " ").
    split; [apply removeTags_TagsRemoved|].
    split; [intros t; apply removeTags_no_tag|].
    split; [apply ReplaceAll_Replaced; discriminate|].
    rewrite G. split; [apply TrimSpace_Trimmed | reflexivity].
  - intros c rest Hc. rewrite Hc in S1. apply asciiSpace_bytes.
    cbn [startsWithSpace] in S1. now apply orb_false_iff in S1 as [S1 _].
  - intros front c Hc. rewrite Hc in S2. apply asciiSpace_bytes.
    unfold endsWithSpace in S2. rewrite reverse_append in S2.
    cbn [strings.reverse append startsWithSpace] in S2.
    now apply orb_false_iff in S2 as [S2 _].
  - intros ->. rewrite G. reflexivity.
  - intros ->. rewrite G. reflexivity.
Qed.

End BodyFacts.

(** ** The pipeline *)

Section PipelineFacts.

Variable MapToLower : string -> string.
Variable ParseMediaType : string -> option string.
Variable ParseEmail : string -> string -> string -> time.Time -> models.Job.
Variable UpdateOrCreate :
  models.Job -> list models.FailedJob -> list models.FailedJob.
Variable createOk : bool.

Local Abbreviation filterMessage := (filterMessage MapToLower ParseMediaType).
Local Abbreviation parseRaw := (parseRaw ParseEmail).
Local Abbreviation parseWorker := (parseWorker ParseEmail).
Local Abbreviation afterParse := (afterParse ParseEmail).
Local Abbreviation afterUpsert := (afterUpsert UpdateOrCreate).
Local Abbreviation afterReport := (afterReport createOk).
Local Abbreviation step := (step MapToLower ParseMediaType ParseEmail UpdateOrCreate createOk).
Local Abbreviation steps := (steps MapToLower ParseMediaType ParseEmail UpdateOrCreate createOk).
Local Abbreviation processRaw := (processRaw ParseEmail UpdateOrCreate).
Local Abbreviation processMsg := (processMsg MapToLower ParseMediaType ParseEmail UpdateOrCreate).
Local Abbreviation processAll := (processAll MapToLower ParseMediaType ParseEmail UpdateOrCreate).
Local Abbreviation upstream := (upstream MapToLower ParseMediaType ParseEmail UpdateOrCreate).
Local Abbreviation complete :=
  (complete MapToLower ParseMediaType ParseEmail UpdateOrCreate createOk).
Local Abbreviation next := (next MapToLower ParseMediaType ParseEmail UpdateOrCreate createOk).
Local Abbreviation exec := (exec MapToLower ParseMediaType ParseEmail UpdateOrCreate createOk).
Local Abbreviation jobOf := (jobOf MapToLower ParseMediaType ParseEmail).
Local Abbreviation failureOfMsg := (failureOfMsg MapToLower ParseMediaType ParseEmail).
Local Abbreviation candidateOf := (candidateOf MapToLower ParseMediaType).

(** *** One run, whatever the schedule *)

Lemma step_wellFormed (s s' : State) :
  wellFormed s -> step s s' -> wellFormed s'.
Proof.
  unfold wellFormed. intros W H; destruct H; simpl in *; intros C;
    try discriminate; auto.
  - (* a message is received: the parse stage is not closed *)
    specialize (W C). discriminate.
  - destruct (fst (parseWorker raw (failedJobs e))); discriminate.
Qed.

Lemma processAll_cons (msg : imap.Message) (rest : list imap.Message) (e : Effects) :
  processAll (msg :: rest) e = processAll rest (processMsg msg e).
Proof. reflexivity. Qed.

Lemma step_complete (s s' : State) :
  wellFormed s -> step s s' -> complete s' = complete s.
Proof.
  unfold wellFormed. intros W H; destruct H;
    unfold complete, upstream;
    cbn [returned parseStage filterStage msgChan eff] in *.
  - destruct ps as [|job|].
    + rewrite processAll_cons. unfold processMsg.
      destruct (filterMessage msg); reflexivity.
    + rewrite processAll_cons. unfold processMsg.
      destruct (filterMessage msg); reflexivity.
    + specialize (W eq_refl). discriminate.
  - destruct ps; reflexivity.
  - unfold processRaw.
    destruct (fst (parseWorker raw (failedJobs e))); reflexivity.
  - reflexivity.
  - reflexivity.
  - reflexivity.
Qed.

Lemma steps_complete (s s' : State) :
  wellFormed s -> steps s s' -> complete s' = complete s /\ wellFormed s'.
Proof.
  intros W H; induction H as [s|s1 s2 s3 H12 _ IH]; [auto|].
  destruct (IH (step_wellFormed _ _ W H12)) as [E W3].
  split; [|exact W3]. rewrite E. now apply step_complete.
Qed.

Lemma returned_complete (s : State) :
  returned s = true -> complete s = eff s.
Proof. unfold complete. now intros ->. Qed.

Lemma initial_wellFormed (msgs : list imap.Message) : wellFormed (initial msgs).
Proof. unfold wellFormed. simpl. discriminate. Qed.

(** Every run that reaches the end of [main] leaves the effects of the
    one-message-at-a-time run. *)
Lemma run_effects (msgs : list imap.Message) (s : State) :
  steps (initial msgs) s -> returned s = true ->
  eff s = afterReport (processAll msgs noEffects).
Proof.
  intros H R.
  destruct (steps_complete _ _ (initial_wellFormed msgs) H) as [E _].
  rewrite returned_complete in E by exact R. exact E.
Qed.

(** *** Runs exist and end *)

Lemma next_step (s s' : State) : next s = Some s' -> step s s'.
Proof.
  destruct s as [ms fs ps r e]. unfold next. simpl.
  destruct r; [discriminate|].
  destruct ps as [|job|].
  - destruct fs as [|raw|].
    + destruct ms as [|msg rest]; intros H; injection H as <-; constructor.
    + intros H; injection H as <-. constructor.
    + intros H; injection H as <-. constructor.
  - intros H; injection H as <-. constructor.
  - intros H; injection H as <-. constructor.
Qed.

Lemma next_none (s : State) : next s = None -> returned s = true.
Proof.
  destruct s as [ms fs ps r e]. unfold next. simpl.
  destruct r; [reflexivity|].
  destruct ps; [destruct fs; [destruct ms|..]|..]; discriminate.
Qed.

(** No state before the end of [main] is stuck. *)
Lemma progress (s : State) :
  returned s = false -> exists s', step s s'.
Proof.
  intros R. destruct (next s) as [s'|] eqn:E.
  - exists s'. now apply next_step.
  - apply next_none in E. congruence.
Qed.

Lemma step_measure (s s' : State) : step s s' -> measure s' < measure s.
Proof.
  intros H; destruct H; unfold measure; simpl.
  - destruct (filterMessage msg); simpl; lia.
  - lia.
  - destruct (fst (parseWorker raw (failedJobs e))); simpl; lia.
  - lia.
  - lia.
  - lia.
Qed.

Lemma returned_no_step (s s' : State) : returned s = true -> ~ step s s'.
Proof. intros R H; destruct H; discriminate. Qed.

Lemma exec_steps (fuel : nat) (s : State) : steps s (exec fuel s).
Proof.
  revert s; induction fuel as [|fuel IH]; intros s; simpl; [constructor|].
  destruct (next s) as [s'|] eqn:E; [|constructor].
  eapply steps_cons; [apply next_step; exact E | apply IH].
Qed.

Lemma exec_returned (fuel : nat) (s : State) :
  measure s <= fuel -> returned (exec fuel s) = true.
Proof.
  revert s; induction fuel as [|fuel IH]; intros s M; simpl.
  - destruct (returned s) eqn:R; [reflexivity|].
    unfold measure in M. rewrite R in M. lia.
  - destruct (next s) as [s'|] eqn:E; [|now apply next_none].
    apply IH. apply next_step, step_measure in E. lia.
Qed.

(** Every run can be taken to the end of [main]. *)
Lemma run_ends (s : State) :
  exists s', steps s s' /\ returned s' = true.
Proof.
  exists (exec (measure s) s). split; [apply exec_steps|].
  now apply exec_returned.
Qed.

(** *** What the one-message-at-a-time run leaves *)

Lemma processMsg_fields (msg : imap.Message) (e : Effects) :
  received (processMsg msg e) = received e ++ [msg] /\
  parsed (processMsg msg e) = parsed e ++ candidateOf msg /\
  upserts (processMsg msg e) = upserts e ++ jobOf msg /\
  failedJobs (processMsg msg e) = failedJobs e ++ failureOfMsg msg /\
  FailedJobs (processMsg msg e) =
    fold_left (fun acc job => UpdateOrCreate job acc) (jobOf msg) (FailedJobs e) /\
  disk (processMsg msg e) = disk e.
Proof.
  unfold processMsg, candidateOf, jobOf,
    failureOfMsg.
  destruct (filterMessage msg) as [raw|]; simpl.
  - unfold processRaw, afterParse, parseWorker.
    destruct (isBlank (parseRaw raw)); simpl; rewrite ?app_nil_r.
    all: repeat split; reflexivity.
  - rewrite !app_nil_r. repeat split; reflexivity.
Qed.

Lemma processAll_fields (msgs : list imap.Message) (e : Effects) :
  received (processAll msgs e) = received e ++ msgs /\
  parsed (processAll msgs e) = parsed e ++ flat_map candidateOf msgs /\
  upserts (processAll msgs e) = upserts e ++ flat_map jobOf msgs /\
  failedJobs (processAll msgs e) = failedJobs e ++ flat_map failureOfMsg msgs /\
  FailedJobs (processAll msgs e) =
    fold_left (fun acc job => UpdateOrCreate job acc)
      (flat_map jobOf msgs) (FailedJobs e) /\
  disk (processAll msgs e) = disk e.
Proof.
  revert e; induction msgs as [|msg msgs IH]; intros e.
  - simpl. rewrite !app_nil_r. repeat split; reflexivity.
  - unfold processAll in *. cbn [fold_left flat_map].
    destruct (IH (processMsg msg e)) as (H1 & H2 & H3 & H4 & H5 & H6).
    destruct (processMsg_fields msg e) as (G1 & G2 & G3 & G4 & G5 & G6).
    rewrite H1, H2, H3, H4, H5, H6, G1, G2, G3, G4, G5, G6.
    rewrite <- !app_assoc, fold_left_app. repeat split; reflexivity.
Qed.

End PipelineFacts.

(** ** The failure report *)

Section ReportFacts.

Lemma appendInt_four (x : Z) :
  (0 <= x <= 9999)%Z -> digitsOfWidth 4 (time.appendInt x 4) = true.
Proof.
  intros H.
  assert (A : forallb (fun k => digitsOfWidth 4 (time.appendInt (Z.of_nat k) 4))
                (seq 0 (100 * 100)) = true) by (vm_compute; reflexivity).
  rewrite forallb_forall in A.
  specialize (A (Z.to_nat x)). rewrite Z2Nat.id in A by lia.
  apply A, in_seq. lia.
Qed.

Lemma appendInt_two (x : Z) :
  (0 <= x <= 99)%Z -> digitsOfWidth 2 (time.appendInt x 2) = true.
Proof.
  intros H.
  assert (A : forallb (fun k => digitsOfWidth 2 (time.appendInt (Z.of_nat k) 2))
                (seq 0 100) = true) by (vm_compute; reflexivity).
  rewrite forallb_forall in A.
  specialize (A (Z.to_nat x)). rewrite Z2Nat.id in A by lia.
  apply A, in_seq. lia.
Qed.

(** The layout [2006-01-02 15:04] on a civil time of a four-digit
    year. *)
Lemma Format_layout (t : time.Time) : time.civil t -> hasLayout (time.Format t).
Proof.
  intros (Hy & Hm & Hd & Hh & Hi).
  exists (time.appendInt (time.Year t) 4), (time.appendInt (time.Month t) 2),
    (time.appendInt (time.Day t) 2), (time.appendInt (time.Hour t) 2),
    (time.appendInt (time.Minute t) 2).
  split; [reflexivity|].
  repeat split; (apply appendInt_four || apply appendInt_two); lia.
Qed.

Lemma writeFailuresToCSV_nothing (createOk : bool) :
  writeFailuresToCSV createOk [] [] = [].
Proof. reflexivity. Qed.

Lemma writeFailuresToCSV_lines (llmFailures notionFailures : list models.FailedJob) :
  llmFailures ++ notionFailures <> [] ->
  writeFailuresToCSV true llmFailures notionFailures =
  reportOf (map csvLine llmFailures ++ map csvLine notionFailures).
Proof.
  intros H. unfold writeFailuresToCSV, reportOf.
  destruct (llmFailures ++ notionFailures) as [|e all] eqn:E; [congruence|].
  cbn [List.length Nat.eqb]. rewrite <- map_app, E, map_map. reflexivity.
Qed.

(** The line of an entry, with the two replacements as maps over the
    bytes of the subject and of the body. *)
Lemma csvLine_fields (e : models.FailedJob) :
  csvLine e =
  (quote ++ time.Format (models.Date e) ++ quote ++ "," ++
   quote ++ models.Email e ++ quote ++ "," ++
   quote ++ mapByte (ascii_of_nat 34) "'" (models.Subject e) ++ quote ++ "," ++
   quote ++ mapByte (ascii_of_nat 10) " "
              (mapByte (ascii_of_nat 34) "'" (models.Body e)) ++ quote ++ "," ++
   quote ++ models.Reason e ++ quote ++ newline)%string.
Proof.
  unfold csvLine, quote, newline.
  now rewrite !(ReplaceAll_byte _ _ _ : strings.ReplaceAll _ (String _ EmptyString) " " = _),
    !(ReplaceAll_byte _ _ _ : strings.ReplaceAll _ (String _ EmptyString) "'" = _).
Qed.

End ReportFacts.

(** C7: the claim has every field value of a row written with its double
    quotes turned into single quotes and its line feeds into spaces.  The
    code does so for the body, but not for the other fields: the reason
    and the sender are written with their double quotes in place, and the
    subject with its line feeds, so the rows below are not the sanitized
    ones, and their quoted fields are cut short by the quotes inside
    them. *)
Theorem writeFailuresToCSV_raw_fields :
  writeFailuresToCSV true [] [Sample.refused] <>
    reportOf [sanitizedLine Sample.refused] /\
  writeFailuresToCSV true [] [Sample.refused] =
    reportOf [(quote ++ "2024-03-07 09:05" ++ quote ++ "," ++
               quote ++ "jobs@acme.test" ++ quote ++ "," ++
               quote ++ quote ++ "," ++ quote ++ quote ++ "," ++
               quote ++ "store refused " ++ quote ++ "Intern" ++ quote ++ quote ++
               newline)%string] /\
  csvLine Sample.folded <> sanitizedLine Sample.folded /\
  csvLine Sample.folded =
    (quote ++ "2024-03-07 09:05" ++ quote ++ "," ++
     quote ++ quote ++ "hr" ++ quote ++ "@acme.test" ++ quote ++ "," ++
     quote ++ "application" ++ newline ++ "update" ++ quote ++ "," ++
     quote ++ "Dear 'Ann', thanks" ++ quote ++ "," ++
     quote ++ "Empty LLM output" ++ quote ++ newline)%string.
Proof.
  split; [|split; [reflexivity|]].
  - vm_compute. intros H. discriminate H.
  - split; [|reflexivity].
    vm_compute. intros H. discriminate H.
Qed.

(** ** The stages of [main] *)

Section PipelineClaims.

Variable MapToLower : string -> string.
Variable ParseMediaType : string -> option string.
Variable ParseEmail : string -> string -> string -> time.Time -> models.Job.
Variable UpdateOrCreate :
  models.Job -> list models.FailedJob -> list models.FailedJob.
Variable Fetch : list N -> list imap.Message.
Variable createOk : bool.

Local Abbreviation filterMessage := (filterMessage MapToLower ParseMediaType).
Local Abbreviation parseRaw := (parseRaw ParseEmail).
Local Abbreviation parseWorker := (parseWorker ParseEmail).
Local Abbreviation steps := (steps MapToLower ParseMediaType ParseEmail UpdateOrCreate createOk).
Local Abbreviation processAll := (processAll MapToLower ParseMediaType ParseEmail UpdateOrCreate).
Local Abbreviation complete :=
  (complete MapToLower ParseMediaType ParseEmail UpdateOrCreate createOk).
Local Abbreviation main :=
  (main MapToLower ParseMediaType ParseEmail UpdateOrCreate Fetch createOk).
Local Abbreviation jobOf := (jobOf MapToLower ParseMediaType ParseEmail).
Local Abbreviation failureOfMsg := (failureOfMsg MapToLower ParseMediaType ParseEmail).
Local Abbreviation candidateOf := (candidateOf MapToLower ParseMediaType).

Lemma isBlank_iff (job : models.Job) :
  isBlank job = true <->
  models.Company job = EmptyString /\ models.Position job = EmptyString.
Proof.
  unfold isBlank. now rewrite andb_true_iff, !String.eqb_eq.
Qed.

Lemma outcomes_count (msgs : list imap.Message) :
  List.length (flat_map candidateOf msgs) =
  List.length (flat_map jobOf msgs) + List.length (flat_map failureOfMsg msgs).
Proof.
  induction msgs as [|msg msgs IH]; [reflexivity|].
  cbn [flat_map]. rewrite !length_app, IH.
  unfold candidateOf, jobOf, failureOfMsg.
  destruct (filterMessage msg) as [raw|]; [|reflexivity].
  destruct (isBlank (parseRaw raw)); simpl; lia.
Qed.

(** The effects at the end of a run, field by field. *)
Lemma run_fields (msgs : list imap.Message) (s : State) :
  steps (initial msgs) s -> returned s = true ->
  received (eff s) = msgs /\
  parsed (eff s) = flat_map candidateOf msgs /\
  upserts (eff s) = flat_map jobOf msgs /\
  failedJobs (eff s) = flat_map failureOfMsg msgs /\
  FailedJobs (eff s) =
    fold_left (fun acc job => UpdateOrCreate job acc) (flat_map jobOf msgs) [] /\
  disk (eff s) = writeFailuresToCSV createOk (failedJobs (eff s)) (FailedJobs (eff s)).
Proof.
  intros H R.
  rewrite (run_effects MapToLower ParseMediaType ParseEmail UpdateOrCreate createOk msgs s H R).
  destruct (processAll_fields MapToLower ParseMediaType ParseEmail UpdateOrCreate msgs noEffects)
    as (H1 & H2 & H3 & H4 & H5 & H6).
  unfold afterReport. cbn [received parsed upserts failedJobs FailedJobs disk].
  rewrite H1, H2, H3, H4, H5, H6. repeat split; reflexivity.
Qed.

(** C1, as the code has it: for a record taken from [rawChan], when the
    parser's job has a blank company and a blank position, the turn
    appends one entry with the reason ["Empty LLM output"] to the failure
    list and sends nothing on [jobChan]; otherwise it sends the job and
    leaves the failure list as it is.  At the end of a run, every record
    that was parsed has led to one upsert or to one failure entry. *)
Theorem parseWorker_one_outcome (raw : RawEmail) (failed : list models.FailedJob) :
  (models.Company (parseRaw raw) = EmptyString /\
   models.Position (parseRaw raw) = EmptyString ->
   parseWorker raw failed =
     (None,
      failed ++ [{| models.Subject := Subject raw; models.Body := Body raw;
                    models.Email := Email raw; models.Date := Date raw;
                    models.Reason := "Empty LLM output" |}])) /\
  (~ (models.Company (parseRaw raw) = EmptyString /\
      models.Position (parseRaw raw) = EmptyString) ->
   parseWorker raw failed = (Some (parseRaw raw), failed)) /\
  (forall msgs s,
     steps (initial msgs) s -> returned s = true ->
     List.length (parsed (eff s)) =
     List.length (upserts (eff s)) + List.length (failedJobs (eff s))).
Proof.
  unfold parseWorker. repeat split.
  - intros H. apply isBlank_iff in H. now rewrite H.
  - intros H. destruct (isBlank (parseRaw raw)) eqn:E; [|reflexivity].
    apply isBlank_iff in E. contradiction.
  - intros msgs s H R.
    destruct (run_fields msgs s H R) as (_ & -> & -> & -> & _).
    apply outcomes_count.
Qed.

(** C4: with no identifier from the search, [main] returns at once: no
    message is received, no record is parsed, no upsert is made and no
    file-system call is made. *)
Theorem main_no_messages (ids : list N) :
  List.length ids = 0 ->
  main ids noEffects /\
  forall o, main ids o ->
    o = noEffects /\ received o = [] /\ parsed o = [] /\ upserts o = [] /\
    failedJobs o = [] /\ disk o = [].
Proof.
  intros H. split; [now constructor|].
  intros o M. destruct M as [_|s Hne _ _]; [|contradiction].
  repeat split; reflexivity.
Qed.

Lemma upstream_upserts (s : State) (e : Effects) :
  exists later,
    upserts (upstream MapToLower ParseMediaType ParseEmail UpdateOrCreate s e) =
    upserts e ++ later.
Proof.
  unfold upstream. destruct (filterStage s) as [|raw|].
  - destruct (processAll_fields MapToLower ParseMediaType ParseEmail UpdateOrCreate
                (msgChan s) e) as (_ & _ & -> & _).
    eexists; reflexivity.
  - destruct (processAll_fields MapToLower ParseMediaType ParseEmail UpdateOrCreate
                (msgChan s) (processRaw ParseEmail UpdateOrCreate raw e))
      as (_ & _ & -> & _).
    unfold processRaw.
    destruct (fst (parseWorker raw (failedJobs e))) as [job|]; simpl.
    + rewrite <- app_assoc. eexists; reflexivity.
    + eexists; reflexivity.
  - exists []. now rewrite app_nil_r.
Qed.

Lemma complete_upserts (s : State) :
  exists later, upserts (complete s) = upserts (eff s) ++ later.
Proof.
  unfold complete. destruct (returned s).
  - exists []. now rewrite app_nil_r.
  - destruct (parseStage s) as [|job|]; unfold afterReport; cbn [upserts].
    + apply upstream_upserts.
    + destruct (upstream_upserts s (afterUpsert UpdateOrCreate job (eff s)))
        as [later ->].
      simpl. rewrite <- app_assoc. eexists; reflexivity.
    + exists []. now rewrite app_nil_r.
Qed.

(** C5: the upserts are made in the order in which the mailbox sent the
    messages they come from.  Every run can be taken to its end; at
    every moment of a run the upserts made so far are an initial part of
    the jobs of the messages, taken in mailbox order; at the end they
    are all of them. *)
Theorem upserts_fifo (msgs : list imap.Message) :
  (exists s, steps (initial msgs) s /\ returned s = true) /\
  (forall s, steps (initial msgs) s ->
     exists later, flat_map jobOf msgs = upserts (eff s) ++ later) /\
  (forall s, steps (initial msgs) s -> returned s = true ->
     upserts (eff s) = flat_map jobOf msgs).
Proof.
  split; [apply run_ends|]. split.
  - intros s H.
    destruct (steps_complete MapToLower ParseMediaType ParseEmail UpdateOrCreate createOk
                _ _ (initial_wellFormed msgs) H) as [E _].
    destruct (complete_upserts s) as [later L].
    exists later. rewrite <- L, E.
    unfold complete, upstream, afterReport.
    cbn [returned parseStage filterStage initial msgChan eff upserts].
    now destruct (processAll_fields MapToLower ParseMediaType ParseEmail UpdateOrCreate
                    msgs noEffects) as (_ & _ & -> & _).
  - intros s H R. now destruct (run_fields msgs s H R) as (_ & _ & -> & _).
Qed.

Lemma filterMessage_subject (msg : imap.Message) (raw : RawEmail) :
  filterMessage msg = Some raw ->
  exists env,
    imap.Envelope msg = Some env /\
    isJobEmail (strings.ToLower MapToLower (imap.Subject env)) = true /\
    raw = {| Subject := strings.ToLower MapToLower (imap.Subject env);
             Body := getBodyText ParseMediaType (Some msg);
             Email := getSenderEmail (Some msg);
             Date := imap.Date env |}.
Proof.
  unfold filterMessage.
  destruct (imap.Envelope msg) as [env|]; [|discriminate].
  destruct (isJobEmail (strings.ToLower MapToLower (imap.Subject env))) eqn:J; [|discriminate].
  intros H; injection H as <-. exists env. auto.
Qed.

Lemma candidateOf_In (msgs : list imap.Message) (raw : RawEmail) :
  In raw (flat_map candidateOf msgs) ->
  exists msg, In msg msgs /\ filterMessage msg = Some raw.
Proof.
  rewrite in_flat_map. intros [msg [Hin H]]. exists msg. split; [exact Hin|].
  unfold candidateOf in H. destruct (filterMessage msg) as [raw'|]; [|contradiction].
  destruct H as [-> | []]. reflexivity.
Qed.

Lemma failureOfMsg_In (msgs : list imap.Message) (f : models.FailedJob) :
  In f (flat_map failureOfMsg msgs) ->
  exists msg raw, In msg msgs /\ filterMessage msg = Some raw /\ f = failureOf raw.
Proof.
  rewrite in_flat_map. intros [msg [Hin H]]. exists msg.
  unfold failureOfMsg in H. destruct (filterMessage msg) as [raw|]; [|contradiction].
  exists raw. destruct (isBlank (parseRaw raw)); [|contradiction].
  destruct H as [<- | []]. auto.
Qed.

(** C8: the record the filter stage sends for a message carries the
    envelope subject in lower case; that is the subject the parser is
    called with, the subject of the failure entry, and, with its double
    quotes turned into single quotes, the subject of the line in the
    failure file.  At the end of a run, every record that was parsed and
    every entry of the parse stage's failure list has the subject of a
    message of the mailbox in lower case. *)
Theorem candidate_subject_lower :
  (forall msg raw,
     filterMessage msg = Some raw ->
     exists env,
       imap.Envelope msg = Some env /\
       Subject raw = strings.ToLower MapToLower (imap.Subject env) /\
       parseRaw raw =
         ParseEmail (strings.ToLower MapToLower (imap.Subject env))
           (Body raw) (Email raw) (Date raw) /\
       models.Subject (failureOf raw) = strings.ToLower MapToLower (imap.Subject env) /\
       csvLine (failureOf raw) =
         (quote ++ time.Format (Date raw) ++ quote ++ "," ++
          quote ++ Email raw ++ quote ++ "," ++
          quote ++ mapByte (ascii_of_nat 34) "'"
                     (strings.ToLower MapToLower (imap.Subject env)) ++ quote ++ "," ++
          quote ++ mapByte (ascii_of_nat 10) " "
                     (mapByte (ascii_of_nat 34) "'" (Body raw)) ++ quote ++ "," ++
          quote ++ "Empty LLM output" ++ quote ++ newline)%string) /\
  (forall msgs s,
     steps (initial msgs) s -> returned s = true ->
     (forall raw, In raw (parsed (eff s)) ->
        exists msg env,
          In msg msgs /\ imap.Envelope msg = Some env /\
          Subject raw = strings.ToLower MapToLower (imap.Subject env)) /\
     (forall f, In f (failedJobs (eff s)) ->
        exists msg env,
          In msg msgs /\ imap.Envelope msg = Some env /\
          models.Subject f = strings.ToLower MapToLower (imap.Subject env))).
Proof.
  split.
  - intros msg raw H.
    destruct (filterMessage_subject msg raw H) as [env [E [_ ->]]].
    exists env. repeat split; try reflexivity; [exact E|].
    rewrite csvLine_fields. reflexivity.
  - intros msgs s H R.
    destruct (run_fields msgs s H R) as (_ & -> & _ & -> & _). split.
    + intros raw Hin.
      destruct (candidateOf_In msgs raw Hin) as [msg [Hm F]].
      destruct (filterMessage_subject msg raw F) as [env [E [_ ->]]].
      exists msg, env. auto.
    + intros f Hin.
      destruct (failureOfMsg_In msgs f Hin) as [msg [raw [Hm [F ->]]]].
      destruct (filterMessage_subject msg raw F) as [env [E [_ ->]]].
      exists msg, env. auto.
Qed.

(** C10: the failure file lists the entries of the parse stage before
    the entries of the store, whenever each was made during the run: the
    report is written from the parse stage's list followed by
    [models.FailedJobs]. *)
Theorem report_parse_failures_first (msgs : list imap.Message) (s : State) :
  steps (initial msgs) s -> returned s = true ->
  failedJobs (eff s) = flat_map failureOfMsg msgs /\
  FailedJobs (eff s) =
    fold_left (fun acc job => UpdateOrCreate job acc) (flat_map jobOf msgs) [] /\
  disk (eff s) =
    writeFailuresToCSV createOk (failedJobs (eff s)) (FailedJobs (eff s)) /\
  (createOk = true -> failedJobs (eff s) ++ FailedJobs (eff s) <> [] ->
   disk (eff s) =
     reportOf (map csvLine (failedJobs (eff s)) ++ map csvLine (FailedJobs (eff s)))).
Proof.
  intros H R.
  destruct (run_fields msgs s H R) as (_ & _ & _ & H4 & H5 & H6).
  repeat split; try assumption.
  intros C Hne. rewrite H6, C. now apply writeFailuresToCSV_lines.
Qed.

End PipelineClaims.

(** ** The theorems at the sample run *)

(** C1, as stated, fails on the reason: for a record the parser finds
    nothing in, the turn sends nothing and appends one entry, and the
    reason of that entry is not ["empty parser output"]. *)
Lemma parseWorker_reason_counterexample :
  models.Company (parseRaw Sample.ParseNothing (Sample.raw "recruiting" "Hello")) =
    EmptyString /\
  models.Position (parseRaw Sample.ParseNothing (Sample.raw "recruiting" "Hello")) =
    EmptyString /\
  ~ exists e,
      parseWorker Sample.ParseNothing (Sample.raw "recruiting" "Hello") [] =
        (None, [e]) /\
      models.Reason e = "empty parser output"%string.
Proof.
  split; [reflexivity|]. split; [reflexivity|].
  intros [e [H R]]. vm_compute in H. injection H as <-.
  vm_compute in R. discriminate R.
Qed.

Lemma parseWorker_one_outcome_witness :
  parseWorker Sample.ParseEmail (Sample.raw "recruiting" EmptyString) [] =
    (None,
     [{| models.Subject := "recruiting"; models.Body := EmptyString;
         models.Email := "jobs@acme.test"; models.Date := Sample.date;
         models.Reason := "Empty LLM output" |}]) /\
  parseWorker Sample.ParseEmail (Sample.raw "recruiting" "Engineer") [] =
    (Some (Sample.ParseEmail "recruiting" "Engineer" "jobs@acme.test" Sample.date), []).
Proof.
  split.
  - destruct (parseWorker_one_outcome SampleCase.MapToLower Sample.ParseMediaType Sample.ParseEmail
                Sample.UpdateOrCreate true
                (Sample.raw "recruiting" EmptyString) []) as [H _].
    apply H. split; reflexivity.
  - destruct (parseWorker_one_outcome SampleCase.MapToLower Sample.ParseMediaType Sample.ParseEmail
                Sample.UpdateOrCreate true
                (Sample.raw "recruiting" "Engineer") []) as [_ [H _]].
    apply H. intros [C _]. discriminate C.
Defined.

Lemma getBodyText_first_plain_witness :
  Forall (passedPlain Charset.ParseMediaType)
    [Sample.htmlPart "<p>x</p>"; Edge.unreadablePlain] /\
  getBodyText Charset.ParseMediaType
    (messageWith None
       [Handed (Sample.htmlPart "<p>x</p>"); Handed Edge.unreadablePlain;
        Handed (Sample.plainPart "Intern"); Failed Charset.latin1Plain;
        Handed (Sample.plainPart "Other")]) = "Intern"%string.
Proof.
  assert (H : Forall (passedPlain Charset.ParseMediaType)
                [Sample.htmlPart "<p>x</p>"; Edge.unreadablePlain]).
  { apply Forall_cons; [left; reflexivity|].
    apply Forall_cons; [right; reflexivity|]. apply Forall_nil. }
  split; [exact H|].
  destruct (getBodyText_first_plain Charset.ParseMediaType None
              [Sample.htmlPart "<p>x</p>"; Edge.unreadablePlain] H) as [G _].
  apply (G (Sample.plainPart "Intern")
           [Failed Charset.latin1Plain; Handed (Sample.plainPart "Other")]
           "Intern" eq_refl eq_refl).
Defined.

(** C2, as stated, fails.  The first plain-text part of a message may be
    one whose body cannot be read: the loop goes on, and the body is the
    text of a later part.  It may be one at which [NextPart] fails: the
    loop ends there, and the body is the HTML fallback. *)
Lemma getBodyText_first_plain_counterexample :
  firstPlain Charset.ParseMediaType
    [Handed Edge.unreadablePlain; Handed (Sample.htmlPart "<p>h</p>");
     Handed (Sample.plainPart "Second")] = Some Edge.unreadablePlain /\
  partsLoop Charset.ParseMediaType EmptyString
    (handedOver
       [Handed Edge.unreadablePlain; Handed (Sample.htmlPart "<p>h</p>");
        Handed (Sample.plainPart "Second")]) = Returned "Second" [] /\
  getBodyText Charset.ParseMediaType
    (messageWith None
       [Handed Edge.unreadablePlain; Handed (Sample.htmlPart "<p>h</p>");
        Handed (Sample.plainPart "Second")]) = "Second"%string /\
  firstPlain Charset.ParseMediaType
    [Handed (Sample.htmlPart "<p>h</p>"); Failed Charset.latin1Plain;
     Handed (Sample.plainPart "Second")] = Some Charset.latin1Plain /\
  mail.Body Charset.latin1Plain = Some "First"%string /\
  getBodyText Charset.ParseMediaType
    (messageWith None
       [Handed (Sample.htmlPart "<p>h</p>"); Failed Charset.latin1Plain;
        Handed (Sample.plainPart "Second")]) = "h"%string /\
  "h"%string <> "First"%string.
Proof.
  repeat split; try reflexivity. discriminate.
Qed.

Lemma subjectFilter_keywords_witness :
  subjectFilter SampleCase.MapToLower "Thanks from Acme" = true.
Proof.
  destruct (subjectFilter_keywords SampleCase.MapToLower "Thanks from Acme")
    as [_ H].
  apply (H eq_refl).
  exists "thanks from"%string. split; [simpl; tauto|].
  exists EmptyString, "Thanks from"%string, " Acme"%string.
  split; reflexivity.
Defined.

Lemma main_no_messages_witness :
  main SampleCase.MapToLower Sample.ParseMediaType Sample.ParseEmail Sample.UpdateOrCreate
    Sample.Fetch true [] noEffects.
Proof.
  apply (main_no_messages SampleCase.MapToLower Sample.ParseMediaType Sample.ParseEmail
           Sample.UpdateOrCreate Sample.Fetch true []).
  reflexivity.
Defined.

Lemma upserts_fifo_witness :
  upserts (eff (exec SampleCase.MapToLower Sample.ParseMediaType Sample.ParseEmail
                  Sample.UpdateOrCreate true 20 (initial Sample.inbox))) =
  flat_map (jobOf SampleCase.MapToLower Sample.ParseMediaType Sample.ParseEmail) Sample.inbox /\
  map models.Position
    (flat_map (jobOf SampleCase.MapToLower Sample.ParseMediaType Sample.ParseEmail) Sample.inbox) =
  ["Intern"; "Engineer II"]%string.
Proof.
  split; [|reflexivity].
  destruct (upserts_fifo SampleCase.MapToLower Sample.ParseMediaType Sample.ParseEmail
              Sample.UpdateOrCreate true Sample.inbox) as [_ [_ H]].
  apply H.
  - apply exec_steps.
  - reflexivity.
Defined.

Lemma getBodyText_html_fallback_witness :
  getBodyText Charset.ParseMediaType
    (messageWith None
       [Handed (Sample.htmlPart
                  (newline ++ "  <b>Hello</b>&nbsp;World " ++ newline)%string)]) =
  "Hello World"%string.
Proof.
  destruct (getBodyText_html_fallback Charset.ParseMediaType None
              [Handed (Sample.htmlPart
                         (newline ++ "  <b>Hello</b>&nbsp;World " ++ newline)%string)]
              [] []
              (Sample.htmlPart
                 (newline ++ "  <b>Hello</b>&nbsp;World " ++ newline)%string)
              (newline ++ "  <b>Hello</b>&nbsp;World " ++ newline)%string)
    as (_ & _ & _ & _ & H).
  - reflexivity.
  - apply Forall_cons; [left; reflexivity | apply Forall_nil].
  - reflexivity.
  - reflexivity.
  - apply Forall_nil.
  - apply H. reflexivity.
Defined.

(** C6, as stated, fails: a message may have no plain-text part and one
    HTML part at which [NextPart] fails; the body is then empty, not the
    text of the part without its tags. *)
Lemma getBodyText_html_fallback_counterexample :
  Forall (notPlain Charset.ParseMediaType)
    (map partOf [Failed (Charset.latin1HTML "<b>Hello</b>&nbsp;World")]) /\
  lastHTML Charset.ParseMediaType
    [Failed (Charset.latin1HTML "<b>Hello</b>&nbsp;World")] =
    Some (Charset.latin1HTML "<b>Hello</b>&nbsp;World") /\
  stripHTMLTags "<b>Hello</b>&nbsp;World" = "Hello World"%string /\
  getBodyText Charset.ParseMediaType
    (messageWith None [Failed (Charset.latin1HTML "<b>Hello</b>&nbsp;World")]) =
    EmptyString /\
  EmptyString <> "Hello World"%string.
Proof.
  repeat split; try reflexivity; try discriminate.
  apply Forall_cons; [reflexivity | apply Forall_nil].
Qed.

Lemma candidate_subject_lower_witness :
  exists raw,
    filterMessage SampleCase.MapToLower Sample.ParseMediaType
      (Sample.message "Application UPDATE" [Sample.plainPart "Engineer"]) =
      Some raw /\
    Subject raw = "application update"%string.
Proof.
  exists (Sample.raw "application update" "Engineer").
  split; [reflexivity|].
  destruct (candidate_subject_lower SampleCase.MapToLower Sample.ParseMediaType Sample.ParseEmail
              Sample.UpdateOrCreate true) as [C _].
  destruct (C (Sample.message "Application UPDATE" [Sample.plainPart "Engineer"])
              (Sample.raw "application update" "Engineer") eq_refl)
    as [env [E [S _]]].
  injection E as <-. exact S.
Defined.

Lemma getBodyText_last_html_witness :
  getBodyText Charset.ParseMediaType
    (messageWith None
       [Handed (Sample.htmlPart "<i>old</i>");
        Handed (Sample.htmlPart " <b>Engineer</b>&nbsp;II ");
        Handed Charset.unreadableHTML;
        Failed (Charset.latin1HTML "<i>lost</i>")]) =
  "Engineer II"%string.
Proof.
  destruct (getBodyText_last_html Charset.ParseMediaType None
              [Handed (Sample.htmlPart "<i>old</i>");
               Handed (Sample.htmlPart " <b>Engineer</b>&nbsp;II ");
               Handed Charset.unreadableHTML;
               Failed (Charset.latin1HTML "<i>lost</i>")]
              [Sample.htmlPart "<i>old</i>"] [Charset.unreadableHTML]
              (Sample.htmlPart " <b>Engineer</b>&nbsp;II ")
              " <b>Engineer</b>&nbsp;II ") as [_ H].
  - reflexivity.
  - apply Forall_cons; [left; reflexivity|].
    apply Forall_cons; [left; reflexivity|].
    apply Forall_cons; [left; reflexivity|]. apply Forall_nil.
  - reflexivity.
  - reflexivity.
  - apply Forall_cons; [right; reflexivity | apply Forall_nil].
  - rewrite H. reflexivity.
Defined.

(** C9, as stated, fails: when the last HTML part of a message is one
    whose body cannot be read, or one at which [NextPart] fails, the
    fallback works on the text of an earlier HTML part. *)
Lemma getBodyText_last_html_counterexample :
  lastHTML Charset.ParseMediaType
    [Handed (Sample.htmlPart "<i>a</i>"); Handed Charset.unreadableHTML] =
    Some Charset.unreadableHTML /\
  getBodyText Charset.ParseMediaType
    (messageWith None
       [Handed (Sample.htmlPart "<i>a</i>"); Handed Charset.unreadableHTML]) =
    "a"%string /\
  lastHTML Charset.ParseMediaType
    [Handed (Sample.htmlPart "<i>a</i>"); Failed (Charset.latin1HTML "<i>b</i>")] =
    Some (Charset.latin1HTML "<i>b</i>") /\
  stripHTMLTags "<i>b</i>" = "b"%string /\
  getBodyText Charset.ParseMediaType
    (messageWith None
       [Handed (Sample.htmlPart "<i>a</i>"); Failed (Charset.latin1HTML "<i>b</i>")]) =
    "a"%string /\
  "a"%string <> "b"%string.
Proof.
  repeat split; try reflexivity. discriminate.
Qed.

Lemma report_parse_failures_first_witness :
  map models.Reason
    (failedJobs (eff (exec SampleCase.MapToLower Sample.ParseMediaType Sample.ParseEmail
                        Sample.UpdateOrCreate true 20 (initial Sample.inbox)))) =
    ["Empty LLM output"%string] /\
  disk (eff (exec SampleCase.MapToLower Sample.ParseMediaType Sample.ParseEmail
               Sample.UpdateOrCreate true 20 (initial Sample.inbox))) =
    reportOf
      (map csvLine
         (flat_map (failureOfMsg SampleCase.MapToLower Sample.ParseMediaType Sample.ParseEmail) Sample.inbox) ++
       map csvLine [Sample.refused]).
Proof.
  split; [reflexivity|].
  destruct (report_parse_failures_first SampleCase.MapToLower Sample.ParseMediaType Sample.ParseEmail
              Sample.UpdateOrCreate true Sample.inbox
              (exec SampleCase.MapToLower Sample.ParseMediaType Sample.ParseEmail
                 Sample.UpdateOrCreate true 20 (initial Sample.inbox)))
    as (F & G & _ & H).
  - apply exec_steps.
  - reflexivity.
  - rewrite H; [|reflexivity|discriminate].
    rewrite F. reflexivity.
Defined.

(** * Further properties of the code *)

(** ** The body extractor and the sender *)

Section BodyEdges.

Variable ParseMediaType : string -> option string.

Local Abbreviation partsLoop := (partsLoop ParseMediaType).
Local Abbreviation getBodyText := (getBodyText ParseMediaType).
Local Abbreviation skipped := (skipped ParseMediaType).

Lemma getBodyText_bodyOf env (ps : list mail.Part) :
  getBodyText (messageOf env ps) = bodyOf (partsLoop EmptyString ps).
Proof. reflexivity. Qed.

Lemma partsLoop_skipped (htmlBody : string) (p : mail.Part) (rest : list mail.Part) :
  skipped p -> partsLoop htmlBody (p :: rest) = partsLoop htmlBody rest.
Proof.
  unfold skipped, isPlain, isHTML, hasMediaPrefix, mediaTypeOf.
  cbn [partsLoop].
  destruct (String.eqb_spec (mail.ContentType p) EmptyString) as [E|E];
    [reflexivity|].
  destruct (ParseMediaType (mail.ContentType p)) as [mediaType|]; [|reflexivity].
  destruct (mail.Body p) as [buf|]; [|reflexivity].
  intros [H | [H | [H | [H1 H2]]]]; try congruence.
  now rewrite H1, H2.
Qed.

Lemma partsLoop_remove (p : mail.Part) (pre post : list mail.Part) (htmlBody : string) :
  skipped p ->
  bodyOf (partsLoop htmlBody (pre ++ p :: post)) =
  bodyOf (partsLoop htmlBody (pre ++ post)).
Proof.
  intros Hp. revert htmlBody. induction pre as [|q pre IH]; intros htmlBody.
  - cbn [app]. now rewrite partsLoop_skipped.
  - rewrite <- !app_comm_cons. cbn [partsLoop].
    destruct (String.eqb (mail.ContentType q) EmptyString); [apply IH|].
    destruct (ParseMediaType (mail.ContentType q)) as [mediaType|]; [|apply IH].
    destruct (mail.Body q) as [buf|]; [|apply IH].
    destruct (strings.HasPrefix mediaType "text/plain"); [reflexivity|].
    destruct (strings.HasPrefix mediaType "text/html"); apply IH.
Qed.

(** A part that the loop passes over (no header, a header that does not
    parse, a body that cannot be read, or a media type that is neither
    plain text nor HTML) has no influence on the body: the message without
    it gives the same one. *)
Theorem getBodyText_skips env (p : mail.Part) (pre post : list mail.Part) :
  skipped p ->
  getBodyText (messageOf env (pre ++ p :: post)) =
  getBodyText (messageOf env (pre ++ post)).
Proof.
  intros Hp. rewrite !getBodyText_bodyOf. now apply partsLoop_remove.
Qed.

(** The body is empty for a nil message, for a message without a body
    section, for a body that [mail.CreateReader] rejects, and for a
    message all of whose parts are passed over. *)
Theorem getBodyText_nothing_usable (ps : list mail.Part) :
  Forall skipped ps ->
  (forall env, getBodyText (messageOf env ps) = EmptyString) /\
  getBodyText None = EmptyString /\
  (forall env,
     getBodyText (Some {| imap.Envelope := env; imap.GetBody := None |}) =
       EmptyString) /\
  (forall env,
     getBodyText
       (Some {| imap.Envelope := env; imap.GetBody := Some mail.Malformed |}) =
       EmptyString).
Proof.
  intros H. repeat split.
  intros env. rewrite getBodyText_bodyOf.
  induction H as [|p ps Hp _ IH]; [reflexivity|].
  now rewrite partsLoop_skipped.
Qed.

End BodyEdges.

(** [getSenderEmail] is empty exactly when the message has no sender
    information (nil message, nil envelope or empty [From] list);
    otherwise it is [mailbox@host] of the first address, whatever the
    other addresses are, so it holds at least the [@]. *)
Theorem getSenderEmail_sender :
  (forall msg, getSenderEmail msg = EmptyString <-> noSender msg) /\
  (forall subject date body from others,
     getSenderEmail
       (Some {| imap.Envelope :=
                  Some {| imap.Subject := subject; imap.Date := date;
                          imap.From := from :: others |};
                imap.GetBody := body |}) =
     (imap.MailboxName from ++ "@" ++ imap.HostName from)%string).
Proof.
  split.
  - intros msg. unfold getSenderEmail, noSender.
    destruct msg as [m|]; [|tauto].
    destruct (imap.Envelope m) as [env|]; [|tauto].
    destruct (imap.From env) as [|from others]; [tauto|].
    split; [|discriminate].
    destruct (imap.MailboxName from); discriminate.
  - reflexivity.
Qed.

(** ** [stripHTMLTags] *)

Section StripFacts.

Open Scope string_scope.

Lemma hasClose_app_l (a b : string) :
  regexp.hasClose a = true -> regexp.hasClose (a ++ b) = true.
Proof.
  induction a as [|c a IH]; simpl; [discriminate|].
  destruct (Ascii.eqb c ">"); simpl; auto.
Qed.

Lemma hasClose_app_r (a b : string) :
  regexp.hasClose b = true -> regexp.hasClose (a ++ b) = true.
Proof.
  intros H. induction a as [|c a IH]; simpl; [exact H|].
  rewrite IH. apply orb_true_r.
Qed.

Lemma hasTag_app_l (a b : string) : hasTag a = true -> hasTag (a ++ b) = true.
Proof.
  induction a as [|c a IH]; simpl; [discriminate|].
  intros H. apply orb_true_iff in H as [H | H].
  - apply andb_true_iff in H as [-> H].
    rewrite (hasClose_app_l _ b H). reflexivity.
  - rewrite (IH H). apply orb_true_r.
Qed.

Lemma hasTag_app_r (a b : string) : hasTag b = true -> hasTag (a ++ b) = true.
Proof.
  intros H. induction a as [|c a IH]; simpl; [exact H|].
  rewrite IH. apply orb_true_r.
Qed.

Lemma hasTag_split (s : string) :
  hasTag s = true ->
  exists pre post, s = pre ++ String "<" post /\ regexp.hasClose post = true.
Proof.
  induction s as [|c s IH]; simpl; [discriminate|].
  intros H. apply orb_true_iff in H as [H | H].
  - apply andb_true_iff in H as [E H]. apply Ascii.eqb_eq in E as ->.
    now exists EmptyString, s.
  - destruct (IH H) as [pre [post [-> Hc]]].
    now exists (String c pre), post.
Qed.

(** A match of the pattern occurs exactly when [hasTag] holds. *)
Lemma hasTag_iff (s : string) :
  hasTag s = true <-> exists t, isTag t /\ occursIn t s.
Proof.
  split.
  - intros H. destruct (hasTag_split s H) as [pre [post [-> Hc]]].
    destruct (hasClose_split post Hc) as [inner [rest [-> Hn]]].
    exists (String "<" inner ++ ">"). split; [now exists inner|].
    exists pre, rest. simpl. now rewrite append_assoc.
  - intros [t [[inner [-> _]] [pre [post ->]]]].
    apply hasTag_app_r.
    replace ((String "<" inner ++ ">") ++ post)
      with (String "<" (inner ++ String ">" post))
      by (simpl; now rewrite append_assoc).
    simpl. now rewrite hasClose_append.
Qed.

Lemma hasTag_removeTags (s : string) : hasTag (regexp.removeTags s) = false.
Proof.
  destruct (hasTag (regexp.removeTags s)) eqn:H; [|reflexivity].
  destruct (hasTag_split _ H) as [pre [post [E Hc]]].
  apply scanTags_open in E. congruence.
Qed.

(** Text without a match is left as it is. *)
Lemma removeTags_id (s : string) : hasTag s = false -> regexp.removeTags s = s.
Proof.
  unfold regexp.removeTags. induction s as [|c s IH]; simpl; [reflexivity|].
  intros H. apply orb_false_iff in H as [H1 H2].
  rewrite H1, (IH H2). reflexivity.
Qed.

Lemma Replaced_hasClose (new s out : string) (old : string) :
  regexp.hasClose new = false ->
  Replaced old new s out ->
  regexp.hasClose out = true -> regexp.hasClose s = true.
Proof.
  intros Hnew H; induction H as [|rest out _ IH|c rest out _ _ IH].
  - discriminate.
  - intros H. apply hasClose_app_r, IH.
    revert H. clear -Hnew. induction new as [|x new IHn]; simpl in *; [auto|].
    apply orb_false_iff in Hnew as [-> Hnew]. simpl. auto.
  - simpl. destruct (Ascii.eqb c ">"); simpl; auto.
Qed.

(** Replacing text that holds neither ["<"] nor [">"] brings no match of
    the pattern into being. *)
Lemma Replaced_hasTag (old new s out : string) :
  regexp.hasClose new = false -> hasByte "<" new = false ->
  Replaced old new s out -> hasTag out = true -> hasTag s = true.
Proof.
  intros Hc Ho H; induction H as [|rest out H IH|c rest out P H IH].
  - discriminate.
  - intros T. apply hasTag_app_r, IH.
    revert T. clear -Ho. induction new as [|x new IHn]; simpl in *; [auto|].
    apply orb_false_iff in Ho as [-> Ho]. simpl. auto.
  - simpl. intros T. apply orb_true_iff in T as [T | T].
    + apply andb_true_iff in T as [-> T].
      rewrite (Replaced_hasClose new rest out old Hc H T). reflexivity.
    + rewrite (IH T). apply orb_true_r.
Qed.

Lemma Replaced_prefix (old s out p : string) :
  Replaced old " " s out -> hasByte " " p = false ->
  strings.HasPrefix out p = true -> strings.HasPrefix s p = true.
Proof.
  intros H; revert p; induction H as [|rest out _ IH|c rest out _ _ IH];
    intros p Hp.
  - auto.
  - destruct p as [|x p]; [reflexivity|].
    change (" " ++ out) with (String " " out).
    cbn [strings.HasPrefix hasByte] in *.
    apply orb_false_iff in Hp as [Hx _].
    intros E. apply andb_true_iff in E as [E _].
    rewrite Ascii.eqb_sym in E. congruence.
  - destruct p as [|x p]; [reflexivity|].
    cbn [strings.HasPrefix hasByte] in *.
    apply orb_false_iff in Hp as [_ Hp].
    intros E. apply andb_true_iff in E as [-> E]. simpl. now apply IH.
Qed.

(** After the replacement no [&nbsp;] is left. *)
Lemma Replaced_nbsp (s out : string) :
  Replaced "&nbsp;" " " s out -> strings.Contains out "&nbsp;" = false.
Proof.
  intros H; induction H as [|rest out _ IH|c rest out P H IH].
  - reflexivity.
  - change (" " ++ out) with (String " " out).
    cbn [strings.Contains]. rewrite IH. reflexivity.
  - cbn [strings.Contains]. rewrite IH, orb_false_r.
    destruct (strings.HasPrefix (String c out) "&nbsp;") eqn:E; [|reflexivity].
    apply (Replaced_prefix "&nbsp;" (String c rest) (String c out)) in E;
      [congruence | now apply replaced_keep | reflexivity].
Qed.

Lemma occursIn_infix (t a b c : string) :
  occursIn t b -> occursIn t (a ++ b ++ c).
Proof.
  intros [pre [post ->]]. exists (a ++ pre), (post ++ c).
  now rewrite !append_assoc.
Qed.

Lemma ReplaceAll_id (s old new : string) :
  strings.Contains s old = false -> strings.ReplaceAll s old new = s.
Proof.
  induction s as [|c s IH]; [reflexivity|].
  cbn [strings.Contains]. intros H. apply orb_false_iff in H as [H1 H2].
  rewrite ReplaceAll_keep by exact H1. now rewrite IH.
Qed.

Lemma trimLeading_id (fwd : bool) (s : string) :
  startsWithSpace fwd s = false -> strings.trimLeading fwd s = s.
Proof.
  destruct s as [|c1 [|c2 [|c3 s]]]; simpl; try reflexivity.
  - rewrite orb_false_r. now intros ->.
  - rewrite orb_false_r. intros H. apply orb_false_iff in H as [-> H].
    now rewrite H.
  - intros H. apply orb_false_iff in H as [-> H].
    apply orb_false_iff in H as [-> H]. now rewrite H.
Qed.

Lemma TrimSpace_id (s : string) :
  startsWithSpace true s = false -> endsWithSpace s = false ->
  strings.TrimSpace s = s.
Proof.
  unfold strings.TrimSpace, endsWithSpace. intros H1 H2.
  rewrite (trimLeading_id true s H1), (trimLeading_id false _ H2).
  apply reverse_involutive.
Qed.

End StripFacts.

Lemma stripHTMLTags_checks (html : string) :
  hasTag (stripHTMLTags html) = false /\
  strings.Contains (stripHTMLTags html) "&nbsp;" = false /\
  startsWithSpace true (stripHTMLTags html) = false /\
  endsWithSpace (stripHTMLTags html) = false.
Proof.
  unfold stripHTMLTags.
  set (text := regexp.removeTags html).
  set (spaced := strings.ReplaceAll text "&nbsp;" " ").
  assert (R : Replaced "&nbsp;" " " text spaced)
    by (apply ReplaceAll_Replaced; discriminate).
  destruct (TrimSpace_Trimmed spaced) as (l & r & E & _ & _ & S1 & S2).
  repeat split; [| |exact S1|exact S2].
  - destruct (hasTag (strings.TrimSpace spaced)) eqn:T; [|reflexivity].
    assert (T' : hasTag spaced = true)
      by (rewrite E; now apply hasTag_app_r, hasTag_app_l).
    apply (Replaced_hasTag "&nbsp;" " " text spaced eq_refl eq_refl R) in T'.
    unfold text in T'. now rewrite hasTag_removeTags in T'.
  - destruct (strings.Contains (strings.TrimSpace spaced) "&nbsp;") eqn:C;
      [|reflexivity].
    apply Contains_iff, (occursIn_infix _ l _ r) in C. rewrite <- E in C.
    apply Contains_iff in C. now rewrite (Replaced_nbsp text spaced R) in C.
Qed.

Lemma stripHTMLTags_id (text : string) :
  hasTag text = false -> strings.Contains text "&nbsp;" = false ->
  startsWithSpace true text = false -> endsWithSpace text = false ->
  stripHTMLTags text = text.
Proof.
  intros T N S1 S2. unfold stripHTMLTags.
  rewrite (removeTags_id text T), (ReplaceAll_id text _ _ N).
  now apply TrimSpace_id.
Qed.

(** The text [stripHTMLTags] returns holds no match of [<[^>]*>] and no
    [&nbsp;], and neither starts nor ends with white space. *)
Theorem stripHTMLTags_clean (html : string) :
  (forall t, isTag t -> ~ occursIn t (stripHTMLTags html)) /\
  ~ occursIn "&nbsp;" (stripHTMLTags html) /\
  startsWithSpace true (stripHTMLTags html) = false /\
  endsWithSpace (stripHTMLTags html) = false.
Proof.
  destruct (stripHTMLTags_checks html) as (T & N & S1 & S2).
  repeat split; [| |exact S1|exact S2].
  - intros t Ht Hin.
    assert (G : hasTag (stripHTMLTags html) = true)
      by (apply hasTag_iff; now exists t).
    congruence.
  - intros Hin. apply Contains_iff in Hin. congruence.
Qed.

(** Text that holds no match of the pattern and no [&nbsp;], and has no
    white space at its ends, goes through [stripHTMLTags] unchanged; a
    ["<"] with no [">"] behind it, or a [">"] alone, is such text. *)
Theorem stripHTMLTags_fixed (text : string) :
  (forall t, isTag t -> ~ occursIn t text) -> ~ occursIn "&nbsp;" text ->
  startsWithSpace true text = false -> endsWithSpace text = false ->
  stripHTMLTags text = text.
Proof.
  intros T N S1 S2. apply stripHTMLTags_id; [| |exact S1|exact S2].
  - destruct (hasTag text) eqn:H; [|reflexivity].
    apply hasTag_iff in H as [t [Ht Hin]]. now apply T in Hin.
  - destruct (strings.Contains text "&nbsp;") eqn:H; [|reflexivity].
    apply Contains_iff in H. contradiction.
Qed.

(** [stripHTMLTags] applied twice is [stripHTMLTags] applied once. *)
Theorem stripHTMLTags_idempotent (html : string) :
  stripHTMLTags (stripHTMLTags html) = stripHTMLTags html.
Proof.
  destruct (stripHTMLTags_checks html) as (T & N & S1 & S2).
  now apply stripHTMLTags_id.
Qed.

(** ** The lines of the failure file *)

Section LineFacts.

Open Scope string_scope.

Lemma mapByte_length (old new : ascii) (s : string) :
  String.length (mapByte old new s) = String.length s.
Proof. induction s as [|c s IH]; simpl; [reflexivity | now rewrite IH]. Qed.

Lemma mapByte_gone (old new : ascii) (s : string) :
  new <> old -> hasByte old (mapByte old new s) = false.
Proof.
  intros H. induction s as [|c s IH]; simpl; [reflexivity|].
  rewrite IH, orb_false_r.
  destruct (Ascii.eqb c old) eqn:E; [now apply Ascii.eqb_neq | exact E].
Qed.

Lemma mapByte_keeps_out (c old new : ascii) (s : string) :
  new <> c -> hasByte c s = false -> hasByte c (mapByte old new s) = false.
Proof.
  intros H. induction s as [|x s IH]; simpl; [reflexivity|].
  intros G. apply orb_false_iff in G as [G1 G2]. rewrite (IH G2), orb_false_r.
  destruct (Ascii.eqb x old); [now apply Ascii.eqb_neq | exact G1].
Qed.

Lemma countByte_append (c : ascii) (a b : string) :
  countByte c (a ++ b) = countByte c a + countByte c b.
Proof. induction a as [|x a IH]; simpl; [reflexivity | rewrite IH; lia]. Qed.

Lemma countByte_none (c : ascii) (s : string) :
  hasByte c s = false -> countByte c s = 0.
Proof.
  induction s as [|x s IH]; simpl; [reflexivity|].
  intros H. apply orb_false_iff in H as [-> H]. now rewrite IH.
Qed.

Lemma digits_hasByte (c : ascii) (s : string) :
  (nat_of_ascii c < 48)%nat -> isDigits s = true -> hasByte c s = false.
Proof.
  intros Hc. induction s as [|x s IH]; cbn [isDigits hasByte]; [reflexivity|].
  intros H. apply andb_true_iff in H as [H1 H2]. rewrite (IH H2), orb_false_r.
  apply Ascii.eqb_neq. intros ->.
  apply andb_true_iff in H1 as [H1 _]. apply Nat.leb_le in H1. lia.
Qed.

Lemma hasByte_append (c : ascii) (a b : string) :
  hasByte c (a ++ b) = hasByte c a || hasByte c b.
Proof.
  induction a as [|x a IH]; simpl; [reflexivity|].
  now rewrite IH, orb_assoc.
Qed.

(** The date of a civil time holds neither a double quote nor a line
    feed. *)
Lemma Format_plain (t : time.Time) :
  time.civil t ->
  hasByte (ascii_of_nat 34) (time.Format t) = false /\
  hasByte (ascii_of_nat 10) (time.Format t) = false.
Proof.
  intros C. destruct (Format_layout t C)
    as (y & mo & d & h & mi & -> & Hy & Hmo & Hd & Hh & Hmi).
  unfold digitsOfWidth in *.
  apply andb_true_iff in Hy as [_ Hy], Hmo as [_ Hmo], Hd as [_ Hd],
    Hh as [_ Hh], Hmi as [_ Hmi].
  split; rewrite !hasByte_append;
    rewrite (digits_hasByte _ y), (digits_hasByte _ mo), (digits_hasByte _ d),
      (digits_hasByte _ h), (digits_hasByte _ mi);
    try assumption; try reflexivity;
    change (nat_of_ascii (ascii_of_nat 34)) with 34%nat;
    change (nat_of_ascii (ascii_of_nat 10)) with 10%nat; lia.
Qed.

End LineFacts.

Lemma safe_fields_plain (subject body : string) :
  hasByte (ascii_of_nat 34) (safeSubjectOf subject) = false /\
  hasByte (ascii_of_nat 34) (safeBodyOf body) = false /\
  hasByte (ascii_of_nat 10) (safeBodyOf body) = false /\
  String.length (safeSubjectOf subject) = String.length subject /\
  String.length (safeBodyOf body) = String.length body /\
  (hasByte (ascii_of_nat 10) subject = false ->
   hasByte (ascii_of_nat 10) (safeSubjectOf subject) = false).
Proof.
  unfold safeSubjectOf, safeBodyOf, quote, newline.
  rewrite !(ReplaceAll_byte _ _ _ : strings.ReplaceAll _ (String _ EmptyString) " " = _),
    !(ReplaceAll_byte _ _ _ : strings.ReplaceAll _ (String _ EmptyString) "'" = _).
  rewrite !mapByte_length.
  repeat split.
  - apply mapByte_gone. discriminate.
  - apply mapByte_keeps_out; [discriminate|]. apply mapByte_gone. discriminate.
  - apply mapByte_gone. discriminate.
  - apply mapByte_keeps_out. discriminate.
Qed.

(** The subject and the body go into the line with every double quote
    turned into a single quote, and the body also with every line feed
    turned into a space: neither byte is left in them, and their lengths
    are those of the fields they come from. *)
Theorem csvLine_safe_fields (e : models.FailedJob) :
  csvLine e =
    (quote ++ time.Format (models.Date e) ++ quote ++ "," ++
     quote ++ models.Email e ++ quote ++ "," ++
     quote ++ safeSubjectOf (models.Subject e) ++ quote ++ "," ++
     quote ++ safeBodyOf (models.Body e) ++ quote ++ "," ++
     quote ++ models.Reason e ++ quote ++ newline)%string /\
  hasByte (ascii_of_nat 34) (safeSubjectOf (models.Subject e)) = false /\
  hasByte (ascii_of_nat 34) (safeBodyOf (models.Body e)) = false /\
  hasByte (ascii_of_nat 10) (safeBodyOf (models.Body e)) = false /\
  String.length (safeSubjectOf (models.Subject e)) =
    String.length (models.Subject e) /\
  String.length (safeBodyOf (models.Body e)) = String.length (models.Body e).
Proof.
  split; [reflexivity|].
  destruct (safe_fields_plain (models.Subject e) (models.Body e))
    as (H1 & H2 & H3 & H4 & H5 & _).
  auto.
Qed.

(** When the subject holds no line feed, and the sender and the reason
    hold neither a double quote nor a line feed, the line of an entry with
    a civil date is one line of five quoted fields: it holds ten double
    quotes and one line feed. *)
Theorem csvLine_well_formed (e : models.FailedJob) :
  time.civil (models.Date e) ->
  hasByte (ascii_of_nat 10) (models.Subject e) = false ->
  hasByte (ascii_of_nat 34) (models.Email e) = false ->
  hasByte (ascii_of_nat 10) (models.Email e) = false ->
  hasByte (ascii_of_nat 34) (models.Reason e) = false ->
  hasByte (ascii_of_nat 10) (models.Reason e) = false ->
  countByte (ascii_of_nat 34) (csvLine e) = 10 /\
  countByte (ascii_of_nat 10) (csvLine e) = 1.
Proof.
  intros C Sn Eq En Rq Rn.
  destruct (safe_fields_plain (models.Subject e) (models.Body e))
    as (Sq & Bq & Bn & _ & _ & Sn').
  specialize (Sn' Sn).
  destruct (Format_plain _ C) as [Fq Fn].
  change (csvLine e) with
    (quote ++ time.Format (models.Date e) ++ quote ++ "," ++
     quote ++ models.Email e ++ quote ++ "," ++
     quote ++ safeSubjectOf (models.Subject e) ++ quote ++ "," ++
     quote ++ safeBodyOf (models.Body e) ++ quote ++ "," ++
     quote ++ models.Reason e ++ quote ++ newline)%string.
  split; rewrite !countByte_append;
    rewrite (countByte_none _ _ Fq) || rewrite (countByte_none _ _ Fn).
  - rewrite (countByte_none _ _ Eq), (countByte_none _ _ Sq),
      (countByte_none _ _ Bq), (countByte_none _ _ Rq). reflexivity.
  - rewrite (countByte_none _ _ En), (countByte_none _ _ Sn'),
      (countByte_none _ _ Bn), (countByte_none _ _ Rn). reflexivity.
Qed.

(** ** The run of the pipeline *)

Section PipelineExtras.

Variable MapToLower : string -> string.
Variable ParseMediaType : string -> option string.
Variable ParseEmail : string -> string -> string -> time.Time -> models.Job.
Variable UpdateOrCreate :
  models.Job -> list models.FailedJob -> list models.FailedJob.
Variable Fetch : list N -> list imap.Message.
Variable createOk : bool.

Local Abbreviation filterMessage := (filterMessage MapToLower ParseMediaType).
Local Abbreviation parseRaw := (parseRaw ParseEmail).
Local Abbreviation parseWorker := (parseWorker ParseEmail).
Local Abbreviation step := (step MapToLower ParseMediaType ParseEmail UpdateOrCreate createOk).
Local Abbreviation steps := (steps MapToLower ParseMediaType ParseEmail UpdateOrCreate createOk).
Local Abbreviation stepsN := (stepsN MapToLower ParseMediaType ParseEmail UpdateOrCreate createOk).
Local Abbreviation main :=
  (main MapToLower ParseMediaType ParseEmail UpdateOrCreate Fetch createOk).
Local Abbreviation jobOf := (jobOf MapToLower ParseMediaType ParseEmail).
Local Abbreviation failureOfMsg := (failureOfMsg MapToLower ParseMediaType ParseEmail).
Local Abbreviation candidateOf := (candidateOf MapToLower ParseMediaType).
Local Abbreviation jobOfRaw := (jobOfRaw ParseEmail).
Local Abbreviation failureOfRaw := (failureOfRaw ParseEmail).
Local Abbreviation conserved := (conserved MapToLower ParseMediaType ParseEmail).

(** *** Nothing is lost between the stages *)

Lemma held_stageOf {A : Type} (out : option A) :
  held (stageOf out) = match out with Some x => [x] | None => [] end.
Proof. destruct out; reflexivity. Qed.

Lemma step_conserved (msgs : list imap.Message) (s s' : State) :
  conserved msgs s -> step s s' -> conserved msgs s'.
Proof.
  unfold conserved. intros (I1 & I2 & I3 & I4) H; destruct H;
    cbn [eff msgChan filterStage parseStage received parsed upserts failedJobs
         afterReceive afterParse afterUpsert afterReport held] in *.
  - rewrite <- app_assoc. cbn [app]. split; [exact I1|].
    rewrite flat_map_app, <- I2, app_nil_r. cbn [flat_map].
    rewrite app_nil_r, held_stageOf. auto.
  - auto.
  - split; [exact I1|]. split; [now rewrite app_nil_r|].
    rewrite !flat_map_app. cbn [flat_map]. rewrite !app_nil_r.
    rewrite app_nil_r in I3. rewrite <- I3, <- I4, held_stageOf.
    unfold parseWorker, jobOfRaw, failureOfRaw.
    destruct (isBlank (parseRaw raw)); cbn [fst snd]; rewrite ?app_nil_r; auto.
  - auto.
  - rewrite app_nil_r. auto.
  - auto.
Qed.

Lemma initial_conserved (msgs : list imap.Message) : conserved msgs (initial msgs).
Proof. unfold conserved. simpl. auto. Qed.

Lemma steps_conserved (msgs : list imap.Message) (s s' : State) :
  conserved msgs s -> steps s s' -> conserved msgs s'.
Proof.
  intros C H; induction H as [s|s1 s2 s3 H12 _ IH]; [exact C|].
  apply IH. now apply (step_conserved msgs s1).
Qed.

(** *** Every schedule ends *)

Lemma step_movesLeft (s s' : State) : step s s' -> movesLeft s' < movesLeft s.
Proof.
  intros H; destruct H; unfold movesLeft;
    cbn [msgChan filterStage parseStage returned List.length].
  - destruct (filterMessage msg); cbn [stageOf]; lia.
  - lia.
  - destruct (fst (parseWorker raw (failedJobs e))); cbn [stageOf]; lia.
  - lia.
  - lia.
  - lia.
Qed.

Lemma stepsN_movesLeft (n : nat) (s s' : State) :
  stepsN n s s' -> n + movesLeft s' <= movesLeft s.
Proof.
  intros H; induction H as [s|n s1 s2 s3 H12 _ IH]; [lia|].
  apply step_movesLeft in H12. lia.
Qed.

(** A run has no deadlock and no endless schedule: from the start, a run
    of the pipeline over [n] messages makes at most [3 * n + 3] moves;
    before [main] has returned some thread can always move, and afterwards
    none does. *)
Theorem pipeline_terminates (msgs : list imap.Message) (n : nat) (s : State) :
  stepsN n (initial msgs) s ->
  n <= 3 * List.length msgs + 3 /\
  (returned s = false -> exists s', step s s') /\
  (returned s = true -> forall s', ~ step s s').
Proof.
  intros H. apply stepsN_movesLeft in H.
  unfold movesLeft at 2 in H. cbn [initial msgChan filterStage parseStage returned] in H.
  split; [lia|]. split.
  - apply progress.
  - intros R s'. now apply returned_no_step.
Qed.

(** *** Messages that do not qualify *)

Lemma filterMessage_none (msg : imap.Message) :
  filterMessage msg = None <->
  imap.Envelope msg = None \/
  exists env,
    imap.Envelope msg = Some env /\
    subjectFilter MapToLower (imap.Subject env) = false.
Proof.
  unfold filterMessage, subjectFilter.
  destruct (imap.Envelope msg) as [env|]; [|tauto].
  destruct (isJobEmail (strings.ToLower MapToLower (imap.Subject env))) eqn:J.
  - split; [discriminate|]. intros [H | [env' [H1 H2]]]; [discriminate|].
    injection H1 as <-. congruence.
  - split; [|reflexivity]. intros _. right. now exists env.
Qed.

(** A message is discarded by the filter stage exactly when it has no
    envelope or the filter does not accept its subject; when every message
    of the mailbox is such a message, the run receives them all and then
    ends with no parse, no upsert, no failure entry and no file-system
    call. *)
Theorem run_nothing_qualifies (msgs : list imap.Message) (s : State) :
  Forall (fun msg =>
            imap.Envelope msg = None \/
            exists env, imap.Envelope msg = Some env /\
                        subjectFilter MapToLower (imap.Subject env) = false) msgs ->
  steps (initial msgs) s -> returned s = true ->
  (forall msg,
     filterMessage msg = None <->
     imap.Envelope msg = None \/
     exists env, imap.Envelope msg = Some env /\
                 subjectFilter MapToLower (imap.Subject env) = false) /\
  eff s = {| received := msgs; parsed := []; upserts := []; failedJobs := [];
             FailedJobs := []; disk := [] |}.
Proof.
  intros D H R.
  assert (F : Forall (fun msg => filterMessage msg = None) msgs).
  { eapply Forall_impl; [|exact D]. intros msg. apply filterMessage_none. }
  split; [exact filterMessage_none|].
  destruct (run_fields MapToLower ParseMediaType ParseEmail UpdateOrCreate createOk msgs s H R)
    as (H1 & H2 & H3 & H4 & H5 & H6).
  assert (C : flat_map candidateOf msgs = [] /\ flat_map jobOf msgs = [] /\
              flat_map failureOfMsg msgs = []).
  { clear -F. induction F as [|msg msgs Hm _ IH]; [auto|].
    cbn [flat_map]. unfold candidateOf at 1, jobOf at 1, failureOfMsg at 1.
    rewrite Hm. exact IH. }
  destruct C as (C1 & C2 & C3).
  rewrite C1 in H2. rewrite C2 in H3, H5. rewrite C3 in H4.
  cbn [fold_left] in H5. rewrite H4, H5 in H6. cbn in H6.
  destruct (eff s). cbn in *. congruence.
Qed.

(** *** When the failure file is written *)

Lemma writeFailuresToCSV_nil_iff (ok : bool) (a b : list models.FailedJob) :
  writeFailuresToCSV ok a b = [] <-> a = [] /\ b = [].
Proof.
  unfold writeFailuresToCSV. split.
  - destruct (a ++ b) eqn:E; [|discriminate].
    intros _. now apply app_eq_nil in E.
  - intros [-> ->]. reflexivity.
Qed.

(** A run touches the file system exactly when it ends with a failure in
    one of the two lists: with none, no directory is made and no file is
    created. *)
Theorem report_iff_failures (msgs : list imap.Message) (s : State) :
  steps (initial msgs) s -> returned s = true ->
  (disk (eff s) = [] <-> failedJobs (eff s) = [] /\ FailedJobs (eff s) = []).
Proof.
  intros H R.
  destruct (run_fields MapToLower ParseMediaType ParseEmail UpdateOrCreate createOk msgs s H R)
    as (_ & _ & _ & _ & _ & ->).
  apply writeFailuresToCSV_nil_iff.
Qed.

(** *** What reaches the store and the failure list *)

(** At every moment of a run, every job upserted so far is the parser's
    job for a record parsed so far and is not blank in both company and
    position; every entry of the failure list is the entry of a record
    parsed so far whose job is blank in both, with the reason
    ["Empty LLM output"]. *)
Theorem upserts_never_blank (msgs : list imap.Message) (s : State) :
  steps (initial msgs) s ->
  (forall job, In job (upserts (eff s)) ->
     ~ (models.Company job = EmptyString /\ models.Position job = EmptyString) /\
     exists raw, In raw (parsed (eff s)) /\ job = parseRaw raw) /\
  (forall f, In f (failedJobs (eff s)) ->
     models.Reason f = "Empty LLM output"%string /\
     exists raw,
       In raw (parsed (eff s)) /\ f = failureOf raw /\
       models.Company (parseRaw raw) = EmptyString /\
       models.Position (parseRaw raw) = EmptyString).
Proof.
  intros H.
  destruct (steps_conserved msgs _ _ (initial_conserved msgs) H)
    as (_ & _ & I3 & I4).
  split.
  - intros job Hin.
    assert (G : In job (flat_map jobOfRaw (parsed (eff s))))
      by (rewrite <- I3; apply in_or_app; now left).
    apply in_flat_map in G as [raw [Hr G]]. unfold jobOfRaw in G.
    destruct (isBlank (parseRaw raw)) eqn:B; [contradiction|].
    destruct G as [<- | []]. split; [|now exists raw].
    intros C. apply isBlank_iff in C. congruence.
  - intros f Hin. rewrite I4 in Hin.
    apply in_flat_map in Hin as [raw [Hr G]]. unfold failureOfRaw in G.
    destruct (isBlank (parseRaw raw)) eqn:B; [|contradiction].
    destruct G as [<- | []]. apply isBlank_iff in B as [B1 B2].
    split; [reflexivity|]. now exists raw.
Qed.

End PipelineExtras.

(** ** The further properties at sample inputs *)

Lemma exec_stepsN (MapToLower : string -> string)
    (ParseMediaType : string -> option string)
    (ParseEmail : string -> string -> string -> time.Time -> models.Job)
    (UpdateOrCreate : models.Job -> list models.FailedJob -> list models.FailedJob)
    (createOk : bool) (fuel : nat) (s : State) :
  (forall k, k < fuel ->
     returned (exec MapToLower ParseMediaType ParseEmail UpdateOrCreate createOk k s) = false) ->
  stepsN MapToLower ParseMediaType ParseEmail UpdateOrCreate createOk fuel s
    (exec MapToLower ParseMediaType ParseEmail UpdateOrCreate createOk fuel s).
Proof.
  revert s; induction fuel as [|fuel IH]; intros s H; [constructor|].
  cbn [exec].
  destruct (next MapToLower ParseMediaType ParseEmail UpdateOrCreate createOk s) as [s'|] eqn:E.
  - apply stepsN_cons with (s2 := s'); [now apply next_step|].
    apply IH. intros k Hk. specialize (H (S k) ltac:(lia)).
    cbn [exec] in H. now rewrite E in H.
  - apply next_none in E. specialize (H 0 ltac:(lia)). cbn [exec] in H. congruence.
Qed.

Lemma getBodyText_skips_witness :
  getBodyText Sample.ParseMediaType
    (messageOf None
       [Sample.htmlPart "<p>x</p>"; Edge.unreadablePlain; Sample.plainPart "Intern"]) =
  getBodyText Sample.ParseMediaType
    (messageOf None [Sample.htmlPart "<p>x</p>"; Sample.plainPart "Intern"]).
Proof.
  apply (getBodyText_skips Sample.ParseMediaType None Edge.unreadablePlain
           [Sample.htmlPart "<p>x</p>"] [Sample.plainPart "Intern"]).
  right. right. left. reflexivity.
Defined.

Lemma getBodyText_nothing_usable_witness :
  getBodyText Sample.ParseMediaType
    (messageOf None [Edge.noHeaderPart; Edge.imagePart; Edge.unreadablePlain]) =
  EmptyString.
Proof.
  apply (getBodyText_nothing_usable Sample.ParseMediaType
           [Edge.noHeaderPart; Edge.imagePart; Edge.unreadablePlain]).
  apply Forall_cons; [left; reflexivity|].
  apply Forall_cons; [right; right; right; split; reflexivity|].
  apply Forall_cons; [right; right; left; reflexivity|].
  apply Forall_nil.
Defined.

Lemma stripHTMLTags_fixed_witness :
  stripHTMLTags "3 > 2 and 1 < 2" = "3 > 2 and 1 < 2"%string.
Proof.
  apply (stripHTMLTags_fixed "3 > 2 and 1 < 2"); try reflexivity.
  - intros t Ht Hin.
    assert (G : hasTag "3 > 2 and 1 < 2" = true)
      by (apply hasTag_iff; now exists t).
    discriminate G.
  - intros Hin. apply Contains_iff in Hin. discriminate Hin.
Defined.

Lemma csvLine_well_formed_witness :
  countByte (ascii_of_nat 34) (csvLine Edge.entry) = 10 /\
  countByte (ascii_of_nat 10) (csvLine Edge.entry) = 1.
Proof.
  apply (csvLine_well_formed Edge.entry); try reflexivity.
  unfold time.civil. simpl. lia.
Defined.

Lemma pipeline_terminates_witness :
  stepsN SampleCase.MapToLower Sample.ParseMediaType Sample.ParseEmail Sample.UpdateOrCreate true 6
    (initial Edge.single)
    (exec SampleCase.MapToLower Sample.ParseMediaType Sample.ParseEmail Sample.UpdateOrCreate true 6
       (initial Edge.single)) /\
  6 <= 3 * List.length Edge.single + 3 /\
  returned (exec SampleCase.MapToLower Sample.ParseMediaType Sample.ParseEmail Sample.UpdateOrCreate
              true 6 (initial Edge.single)) = true.
Proof.
  assert (H : stepsN SampleCase.MapToLower Sample.ParseMediaType Sample.ParseEmail Sample.UpdateOrCreate
                true 6 (initial Edge.single)
                (exec SampleCase.MapToLower Sample.ParseMediaType Sample.ParseEmail Sample.UpdateOrCreate
                   true 6 (initial Edge.single))).
  { apply exec_stepsN. intros k Hk.
    do 6 (destruct k as [|k]; [reflexivity|]). lia. }
  split; [exact H|]. split; [|reflexivity].
  apply (pipeline_terminates SampleCase.MapToLower Sample.ParseMediaType Sample.ParseEmail
           Sample.UpdateOrCreate true Edge.single 6 _ H).
Defined.

Lemma run_nothing_qualifies_witness :
  eff (exec SampleCase.MapToLower Sample.ParseMediaType Sample.ParseEmail
         Sample.UpdateOrCreate true 10 (initial Edge.newsletters)) =
  {| received := Edge.newsletters; parsed := []; upserts := [];
     failedJobs := []; FailedJobs := []; disk := [] |}.
Proof.
  apply (run_nothing_qualifies SampleCase.MapToLower Sample.ParseMediaType Sample.ParseEmail
           Sample.UpdateOrCreate true Edge.newsletters).
  - apply Forall_cons; [right; eexists; split; reflexivity|].
    apply Forall_cons; [left; reflexivity|]. apply Forall_nil.
  - apply exec_steps.
  - reflexivity.
Defined.

Lemma report_iff_failures_witness :
  disk (eff (exec SampleCase.MapToLower Sample.ParseMediaType Sample.ParseEmail
               Sample.UpdateOrCreate true 10 (initial Edge.single))) = [].
Proof.
  apply (report_iff_failures SampleCase.MapToLower Sample.ParseMediaType Sample.ParseEmail
           Sample.UpdateOrCreate true Edge.single).
  - apply exec_steps.
  - reflexivity.
  - split; reflexivity.
Defined.

Lemma upserts_never_blank_witness :
  In (Sample.ParseEmail "thanks for applying to acme" "Intern" "jobs@acme.test"
        Sample.date)
     (upserts (eff (exec SampleCase.MapToLower Sample.ParseMediaType Sample.ParseEmail
                      Sample.UpdateOrCreate true 20 (initial Sample.inbox)))) /\
  ~ (models.Company
       (Sample.ParseEmail "thanks for applying to acme" "Intern" "jobs@acme.test"
          Sample.date) = EmptyString /\
     models.Position
       (Sample.ParseEmail "thanks for applying to acme" "Intern" "jobs@acme.test"
          Sample.date) = EmptyString).
Proof.
  assert (Hin : In (Sample.ParseEmail "thanks for applying to acme" "Intern"
                      "jobs@acme.test" Sample.date)
                   (upserts (eff (exec SampleCase.MapToLower Sample.ParseMediaType Sample.ParseEmail
                                    Sample.UpdateOrCreate true 20
                                    (initial Sample.inbox)))))
    by (left; reflexivity).
  split; [exact Hin|].
  destruct (upserts_never_blank SampleCase.MapToLower Sample.ParseMediaType Sample.ParseEmail
              Sample.UpdateOrCreate true Sample.inbox _
              (exec_steps _ _ _ _ _ 20 (initial Sample.inbox))) as [U _].
  apply (U _ Hin).
Defined.
